(** * The scripted pipeline stage of the forwarding engine

    A shallow embedding of [modules/pipeline_lua/module/src/pipeline_lua.c]:
    the chunked upload of script code over the control channel
    ([message_listener], [handle_lua_upload]), its commit into the script
    runtime ([commit_lua_upload], [cleanup_lua_upload]), and the per-packet
    call of the script's entry point ([pipeline_lua_process]).

    The C module keeps its state in file-level variables ([lua], [context],
    [process_ref], [upload_chunks]); here they are the fields of one record
    that every operation takes and returns.  The diagnostics the module
    writes and the replies it sends on the control channel are appended to a
    trace kept in the same record.

    The pending buffer is a sequence of bytes, as in the C code, and the
    commit loop walks it with a 32-bit offset.  The script runtime is a
    small model of the Lua state the module drives through the C API.  Not
    modelled: the bounds of the runtime's value stack, the alignment of a
    chunk header in memory, a script that does not return, and start-up and
    shutdown ([pipeline_lua_init], [pipeline_lua_finish]). *)

From Stdlib Require Import ZArith Lia.
From Stdlib Require Import Strings.Byte.
From stdpp Require Import base numbers list option strings gmap.

Open Scope Z_scope.

(** ** Results of running C code *)

(** A call either returns, or runs into behaviour the C standard leaves
    undefined (an out-of-bounds read, a violated Lua API precondition), or
    the model's loop bound was too small to follow it to its end. *)
Inductive outcome (A : Type) : Type :=
| Ret (a : A)
| Undefined
| OutOfFuel.
Arguments Ret {A} a.
Arguments Undefined {A}.
Arguments OutOfFuel {A}.

#[global] Instance outcome_ret : MRet outcome := @Ret.
#[global] Instance outcome_bind : MBind outcome := λ A B f m,
  match m with
  | Ret a => f a
  | Undefined => Undefined
  | OutOfFuel => OutOfFuel
  end.
#[global] Instance outcome_fmap : FMap outcome := λ A B f m,
  match m with
  | Ret a => Ret (f a)
  | Undefined => Undefined
  | OutOfFuel => OutOfFuel
  end.

(** ** Machine integers and bytes *)

Definition wrap32 (z : Z) : Z := z mod 2 ^ 32.
Definition wrap16 (z : Z) : Z := z mod 2 ^ 16.

Definition byte_of_Z (z : Z) : byte :=
  default x00 (Byte.of_N (Z.to_N (z mod 256))).
Definition Z_of_byte (b : byte) : Z := Z.of_N (Byte.to_N b).

(** A [uint32_t] in memory, in the byte order of the host (x86: least
    significant byte first). *)
Definition store32 (z : Z) : list byte :=
  [byte_of_Z z; byte_of_Z (Z.shiftr z 8);
   byte_of_Z (Z.shiftr z 16); byte_of_Z (Z.shiftr z 24)].

Definition load32 (bs : list byte) : Z :=
  match bs with
  | [b0; b1; b2; b3] =>
      Z.lor (Z_of_byte b0)
        (Z.lor (Z.shiftl (Z_of_byte b1) 8)
           (Z.lor (Z.shiftl (Z_of_byte b2) 16) (Z.shiftl (Z_of_byte b3) 24)))
  | _ => 0
  end.

(** [memcpy(buf + off, src, length src)] inside an allocated region. *)
Definition write_at (buf : list byte) (off : nat) (src : list byte) : list byte :=
  take off buf ++ src ++ drop (off + length src)%nat buf.

(** A C string: the bytes before the first NUL. *)
Definition is_nul (b : byte) : bool := Byte.eqb b x00.

Fixpoint c_string (bs : list byte) : list byte :=
  match bs with
  | [] => []
  | b :: bs' => if is_nul b then [] else b :: c_string bs'
  end.

Definition c_str (bs : list byte) : string := String.string_of_list_byte (c_string bs).

(** ** The growable byte buffer *)

(** Modelled from the spec: the [xbuf] module of the repository is not among
    the sources.  The pending upload buffer is "an ordered sequence ...
    append-only during accumulation", with "no enforced maximum buffer
    size", and cleared as a whole; so a buffer is the list of its bytes,
    [xbuf_reserve] appends fresh bytes and hands back their position, and
    [xbuf_reset] empties it. *)
Definition xbuf := list byte.

Definition xbuf_length (b : xbuf) : Z := Z.of_nat (length b).

Definition xbuf_reserve (b : xbuf) (len : Z) : xbuf * nat :=
  (b ++ replicate (Z.to_nat len) x00, length b).

Definition xbuf_reset (b : xbuf) : xbuf := [].

(** ** Control-channel messages *)

(** [of_str64_t] is [char[64]]: whatever the message carries is read as
    exactly 64 bytes. *)
Definition OF_STR64_LEN : nat := 64.

Definition of_str64 (bs : list byte) : list byte :=
  take OF_STR64_LEN (bs ++ replicate OF_STR64_LEN x00).

Inductive of_object_id : Type :=
| OF_BSN_LUA_UPLOAD
| OF_OBJECT_OTHER (n : nat).

(** A control-channel message: the upload message with its three fields, or
    a message of any other type. *)
Inductive of_object : Type :=
| Of_bsn_lua_upload (data : list byte) (flags : Z) (filename : list byte)
| Of_other (id : nat) (body : list byte).

Definition object_id (msg : of_object) : of_object_id :=
  match msg with
  | Of_bsn_lua_upload _ _ _ => OF_BSN_LUA_UPLOAD
  | Of_other n _ => OF_OBJECT_OTHER n
  end.

(** [of_octets_t]: a pointer and a byte count. *)
Definition of_bsn_lua_upload_data_get (msg : of_object) : list byte :=
  match msg with
  | Of_bsn_lua_upload data _ _ => data
  | Of_other _ _ => []
  end.

(** [uint16_t flags]. *)
Definition of_bsn_lua_upload_flags_get (msg : of_object) : Z :=
  match msg with
  | Of_bsn_lua_upload _ flags _ => wrap16 flags
  | Of_other _ _ => 0
  end.

Definition of_bsn_lua_upload_filename_get (msg : of_object) : list byte :=
  match msg with
  | Of_bsn_lua_upload _ _ filename => of_str64 filename
  | Of_other _ _ => of_str64 []
  end.

(** The flag bit, with the value the OpenFlow bindings give it. *)
Definition OFP_BSN_LUA_UPLOAD_MORE : Z := 1.

Inductive of_error_type : Type :=
| OF_ERROR_TYPE_HELLO_FAILED
| OF_ERROR_TYPE_BAD_REQUEST
| OF_ERROR_TYPE_BAD_ACTION.

Inductive of_request_failed : Type :=
| OF_REQUEST_FAILED_BAD_VERSION
| OF_REQUEST_FAILED_BAD_TYPE
| OF_REQUEST_FAILED_EPERM.

Inductive indigo_core_listener_result : Type :=
| INDIGO_CORE_LISTENER_RESULT_PASS
| INDIGO_CORE_LISTENER_RESULT_DROP.

Inductive indigo_error : Type :=
| INDIGO_ERROR_NONE
| INDIGO_ERROR_UNKNOWN.

(** ** Diagnostics and replies *)

Inductive log_level : Type := LOG_VERBOSE | LOG_ERROR.

(** The arguments of a printf-style log call: [%s] takes a C string (or
    NULL), [%u] an unsigned number. *)
Inductive log_arg : Type :=
| ArgS (s : option string)
| ArgU (n : Z).

Inductive event : Type :=
| Log (lvl : log_level) (fmt : string) (args : list log_arg)
| ErrorReply (cxn_id : Z) (msg : of_object)
    (ty : of_error_type) (code : of_request_failed).

(** ** The script runtime *)

(** The part of the Lua 5.1 C API the module calls, over a small model of
    the interpreter state: a value stack, tables of named bindings (one of
    them the global table of the unrestricted namespace), the registry, and
    the function objects.  A function object is a body together with its
    environment table, through which the body resolves every free name. *)
Definition tref := nat.

Inductive lua_value : Type :=
| LNil
| LString (s : string)
| LTable (t : tref)
| LFunction (f : nat).

(** What a piece of script code does when it runs: it reads and writes free
    names, makes new functions, and ends normally or by raising an error.
    What it does next may depend on every value it has read, and a value
    it has read may be a table, whose fields it reads in turn.

    This is the part of a script's behaviour the module's C code deals
    with, and no more: a script here does not call functions, write to the
    fields of the tables it has read, use metatables or write to the log,
    its errors are strings, and it always comes to an end. *)
Inductive lua_code : Type :=
| CReturn
| CError (msg : string)
| CGetGlobal (name : string) (k : lua_value → lua_code)
| CSetGlobal (name : string) (v : lua_value) (k : lua_code)
| CIndex (v : lua_value) (key : string) (k : lua_value → lua_code)
| CClosure (body : lua_code) (k : lua_value → lua_code).

Record lua_closure : Type := { body : lua_code; fenv : tref }.

Record lua_State : Type := {
  stack : list lua_value;                      (* top of the stack first *)
  tables : gmap tref (gmap string lua_value);
  l_gt : tref;                                 (* the table of globals *)
  registry : gmap Z lua_value;
  closures : list lua_closure
}.

Definition LUA_REGISTRYINDEX : Z := -10000.
Definition LUA_ERRRUN : Z := 2.
Definition LUA_ERRSYNTAX : Z := 3.

Definition set_stack (s : list lua_value) (L : lua_State) : lua_State :=
  {| stack := s; tables := tables L; l_gt := l_gt L;
     registry := registry L; closures := closures L |}.

Definition set_tables (t : gmap tref (gmap string lua_value)) (L : lua_State)
  : lua_State :=
  {| stack := stack L; tables := t; l_gt := l_gt L;
     registry := registry L; closures := closures L |}.

Definition set_closures (c : list lua_closure) (L : lua_State) : lua_State :=
  {| stack := stack L; tables := tables L; l_gt := l_gt L;
     registry := registry L; closures := c |}.

Definition lua_push (v : lua_value) (L : lua_State) : lua_State :=
  set_stack (v :: stack L) L.

Definition table_of (L : lua_State) (t : tref) : gmap string lua_value :=
  default ∅ (tables L !! t).

Definition table_get (L : lua_State) (t : tref) (name : string) : lua_value :=
  default LNil (table_of L t !! name).

(** Assigning nil removes the binding. *)
Definition table_set (L : lua_State) (t : tref) (name : string) (v : lua_value)
  : lua_State :=
  let tbl := table_of L t in
  let tbl' := match v with LNil => delete name tbl | _ => <[name := v]> tbl end in
  set_tables (<[t := tbl']> (tables L)) L.

Definition new_closure (c : lua_code) (env : tref) (L : lua_State)
  : lua_State * lua_value :=
  (set_closures (closures L ++ [{| body := c; fenv := env |}]) L,
   LFunction (length (closures L))).

Definition type_name (v : lua_value) : string :=
  match v with
  | LNil => "nil"
  | LString _ => "string"
  | LTable _ => "table"
  | LFunction _ => "function"
  end.

(** Running a function body in environment [env].  A body that never
    returns has no outcome to report and is outside this model.  Reading a
    field of a value that is no table raises an error (metatables, the one
    of strings among them, are not modelled). *)
Fixpoint lua_execute (c : lua_code) (env : tref) (L : lua_State)
  : lua_State * option string :=
  match c with
  | CReturn => (L, None)
  | CError msg => (L, Some msg)
  | CGetGlobal name k => lua_execute (k (table_get L env name)) env L
  | CSetGlobal name v k => lua_execute k env (table_set L env name v)
  | CIndex v key k =>
      match v with
      | LTable t => lua_execute (k (table_get L t key)) env L
      | _ => (L, Some ("attempt to index a " +:+ type_name v +:+ " value"))
      end
  | CClosure b k =>
      let '(L', f) := new_closure b env L in
      lua_execute (k f) env L'
  end.

(** The stack slot an acceptable index names (negative: from the top;
    positive: from the bottom). *)
Definition index2adr (L : lua_State) (idx : Z) : option lua_value :=
  if idx <? 0 then stack L !! Z.to_nat (- idx - 1)
  else if 0 <? idx then reverse (stack L) !! Z.to_nat (idx - 1)
  else None.

Definition lua_tostring (L : lua_State) (idx : Z) : option string :=
  match index2adr L idx with
  | Some (LString s) => Some s
  | _ => None
  end.

(** [lua_getglobal(L, name)]: push the value bound to [name] in the table
    of globals. *)
Definition lua_getglobal (L : lua_State) (name : string) : lua_State :=
  lua_push (table_get L (l_gt L) name) L.

(** [lua_rawgeti(L, LUA_REGISTRYINDEX, n)], the only form the module uses. *)
Definition lua_rawgeti (L : lua_State) (idx : Z) (n : Z) : outcome lua_State :=
  if idx =? LUA_REGISTRYINDEX
  then Ret (lua_push (default LNil (registry L !! n)) L)
  else Undefined.

(** [lua_setfenv(L, idx)]: pop a table and make it the environment of the
    function at [idx]; returns 0 when the value at [idx] has no environment
    to set.  The API requires a table on top of the stack. *)
Definition lua_setfenv (L : lua_State) (idx : Z) : outcome (lua_State * Z) :=
  match stack L with
  | LTable t :: rest =>
      match index2adr L idx with
      | Some (LFunction f) =>
          match closures L !! f with
          | Some cl =>
              Ret (set_stack rest
                     (set_closures
                        (<[f := {| body := body cl; fenv := t |}]> (closures L)) L),
                   1)
          | None => Undefined
          end
      | Some _ => Ret (set_stack rest L, 0)
      | None => Undefined
      end
  | _ => Undefined
  end.

(** [lua_pcall(L, 0, 0, 0)], the only form the module uses: pop the function
    and run it in protected mode; an error is caught, its message pushed
    and a non-zero status returned. *)
Definition lua_pcall (L : lua_State) : outcome (lua_State * Z) :=
  match stack L with
  | LFunction f :: rest =>
      match closures L !! f with
      | Some cl =>
          let '(L', r) := lua_execute (body cl) (fenv cl) (set_stack rest L) in
          match r with
          | None => Ret (L', 0)
          | Some msg => Ret (lua_push (LString msg) L', LUA_ERRRUN)
          end
      | None => Undefined
      end
  | _ :: rest =>
      Ret (lua_push (LString "attempt to call a non-function value")
             (set_stack rest L), LUA_ERRRUN)
  | [] => Undefined
  end.

(** ** What the host engine and the script runtime supply *)

(** The decoded packet key, the field table made from it and the two sinks
    are opaque to this module; [pipeline_lua_fields_from_key] is declared in
    [pipeline_lua_int.h].  [lua_load] is the runtime's compiler: from a
    source text and a chunk name to a function body, or to the message of a
    syntax error. *)
Class Host : Type := {
  ind_ovs_parsed_key : Type;
  fields : Type;
  stats_xbuf : Type;
  action_context : Type;
  pipeline_lua_fields_from_key : ind_ovs_parsed_key → fields;
  lua_load : list byte → string → lua_code + string
}.

Section Pipeline.
Context `{Host}.

(** [luaL_loadbuffer(L, buff, sz, name)]: compile [sz] bytes; push the new
    function, whose environment is the table of globals, and return 0, or
    push the error message and return a non-zero status. *)
Definition luaL_loadbuffer (L : lua_State) (buff : list byte) (sz : Z)
    (name : string) : lua_State * Z :=
  match lua_load (take (Z.to_nat sz) buff) name with
  | inl c =>
      let '(L', f) := new_closure c (l_gt L) L in
      (lua_push f L', 0)
  | inr msg => (lua_push (LString msg) L, LUA_ERRSYNTAX)
  end.

(** Per-packet information shared with Lua *)
Record struct_context : Type := {
  stats : stats_xbuf;
  actx : action_context;
  ctx_fields : fields
}.

(** [struct upload_chunk]: a 64-byte name, a 32-bit size, then the data. *)
Record upload_chunk : Type := {
  chunk_filename : list byte;
  chunk_size : Z;
  chunk_data : list byte
}.

Definition SIZEOF_UPLOAD_CHUNK : Z := 68.
Definition OFFSETOF_SIZE : nat := 64.
Definition OFFSETOF_DATA : nat := 68.

(** The file-level variables of the module, and what it has written out. *)
Record state : Type := {
  lua : lua_State;
  context : struct_context;
  process_ref : Z;
  upload_chunks : xbuf;                 (* List of struct upload_chunk *)
  trace : list event
}.

Definition set_lua (L : lua_State) (st : state) : state :=
  {| lua := L; context := context st; process_ref := process_ref st;
     upload_chunks := upload_chunks st; trace := trace st |}.

Definition set_context (c : struct_context) (st : state) : state :=
  {| lua := lua st; context := c; process_ref := process_ref st;
     upload_chunks := upload_chunks st; trace := trace st |}.

Definition set_upload_chunks (b : xbuf) (st : state) : state :=
  {| lua := lua st; context := context st; process_ref := process_ref st;
     upload_chunks := b; trace := trace st |}.

Definition emit (e : event) (st : state) : state :=
  {| lua := lua st; context := context st; process_ref := process_ref st;
     upload_chunks := upload_chunks st; trace := trace st ++ [e] |}.

Definition aim_log (lvl : log_level) (fmt : string) (args : list log_arg)
    (st : state) : state :=
  emit (Log lvl fmt args) st.

Definition indigo_cxn_send_error_reply (cxn_id : Z) (msg : of_object)
    (ty : of_error_type) (code : of_request_failed) (st : state) : state :=
  emit (ErrorReply cxn_id msg ty code) st.

(** ** pipeline_lua_process *)

Definition pipeline_lua_process (key : ind_ovs_parsed_key) (stats_ : stats_xbuf)
    (actx_ : action_context) (st : state) : outcome (state * indigo_error) :=
  let st := set_context {| stats := stats_; actx := actx_;
                           ctx_fields := pipeline_lua_fields_from_key key |} st in
  L ← lua_rawgeti (lua st) LUA_REGISTRYINDEX (process_ref st);
  let st := set_lua L st in
  '(L, rc) ← lua_pcall (lua st);
  let st := set_lua L st in
  let st :=
    if negb (rc =? 0)
    then aim_log LOG_ERROR "Failed to execute script: %s"
           [ArgS (lua_tostring (lua st) (-1))] st
    else st in
  Ret (st, INDIGO_ERROR_NONE).

(** ** commit_lua_upload *)

Definition cleanup_lua_upload (st : state) : state :=
  set_upload_chunks (xbuf_reset (upload_chunks st)) st.

(** [xbuf_data(&upload_chunks) + offset], read as a [struct upload_chunk]
    with the [size] bytes of data that follow it.  Reading past the end of
    the buffer is undefined. *)
Definition chunk_at (buf : xbuf) (offset : Z) : outcome upload_chunk :=
  let off := Z.to_nat offset in
  if offset + SIZEOF_UPLOAD_CHUNK <=? xbuf_length buf then
    let size := load32 (take 4 (drop (off + OFFSETOF_SIZE) buf)) in
    if offset + SIZEOF_UPLOAD_CHUNK + size <=? xbuf_length buf then
      Ret {| chunk_filename := take OF_STR64_LEN (drop off buf);
             chunk_size := size;
             chunk_data := take (Z.to_nat size) (drop (off + OFFSETOF_DATA) buf) |}
    else Undefined
  else Undefined.

(** The body of the loop once [chunk] has been located: load the chunk, set
    its environment to the sandbox, run it.  The flag returned is true on
    the two paths that leave the loop by [goto cleanup]. *)
Definition commit_chunk (cxn_id : Z) (msg : of_object) (chunk : upload_chunk)
    (st : state) : outcome (state * bool) :=
  let st := aim_log LOG_VERBOSE "Loading Lua chunk %s, %u bytes"
              [ArgS (Some (c_str (chunk_filename chunk)));
               ArgU (chunk_size chunk)] st in
  let '(L, rc) := luaL_loadbuffer (lua st) (chunk_data chunk)
                    (chunk_size chunk) (c_str (chunk_filename chunk)) in
  let st := set_lua L st in
  if negb (rc =? 0) then
    let st := aim_log LOG_ERROR "Failed to load code: %s"
                [ArgS (lua_tostring (lua st) (-1))] st in
    let st := indigo_cxn_send_error_reply cxn_id msg
                OF_ERROR_TYPE_BAD_REQUEST OF_REQUEST_FAILED_EPERM st in
    Ret (st, true)
  else
    (* Set the environment of the new chunk to the sandbox *)
    let st := set_lua (lua_getglobal (lua st) "sandbox") st in
    '(L, _) ← lua_setfenv (lua st) (-2);
    let st := set_lua L st in
    '(L, rc) ← lua_pcall (lua st);
    let st := set_lua L st in
    if negb (rc =? 0) then
      let st := aim_log LOG_ERROR "Failed to execute code %s: %s"
                  [ArgS (Some (c_str (chunk_filename chunk)));
                   ArgS (lua_tostring (lua st) (-1))] st in
      let st := indigo_cxn_send_error_reply cxn_id msg
                  OF_ERROR_TYPE_BAD_REQUEST OF_REQUEST_FAILED_EPERM st in
      Ret (st, true)
    else Ret (st, false).

(** [while (offset < xbuf_length(&upload_chunks))], with [offset] a
    [uint32_t]. *)
Fixpoint commit_loop (fuel : nat) (cxn_id : Z) (msg : of_object) (offset : Z)
    (st : state) : outcome state :=
  if offset <? xbuf_length (upload_chunks st) then
    match fuel with
    | O => OutOfFuel
    | S fuel' =>
        chunk ← chunk_at (upload_chunks st) offset;
        let offset := wrap32 (offset + (SIZEOF_UPLOAD_CHUNK + chunk_size chunk)) in
        '(st, stop) ← commit_chunk cxn_id msg chunk st;
        if stop : bool then Ret st
        else commit_loop fuel' cxn_id msg offset st
    end
  else Ret st.

(** Every turn of the loop that stays inside the buffer moves [offset]
    forward by at least the 68 bytes of a header, so the loop is given one
    turn per byte of the buffer, and one more. *)
Definition commit_lua_upload (cxn_id : Z) (msg : of_object) (st : state)
    : outcome state :=
  st ← commit_loop (S (length (upload_chunks st))) cxn_id msg 0 st;
  (* cleanup: *)
  Ret (cleanup_lua_upload st).

(** ** handle_lua_upload *)

Definition handle_lua_upload (cxn_id : Z) (msg : of_object) (st : state)
    : outcome state :=
  let data := of_bsn_lua_upload_data_get msg in
  let flags := of_bsn_lua_upload_flags_get msg in
  let filename := of_bsn_lua_upload_filename_get msg in
  (* Ensure filename is null terminated *)
  let filename := <[63%nat := x00]> filename in
  let data_bytes := Z.of_nat (length data) in
  let st :=
    if 0 <? data_bytes then
      let '(buf, chunk) :=
        xbuf_reserve (upload_chunks st) (SIZEOF_UPLOAD_CHUNK + data_bytes) in
      let buf := write_at buf (chunk + OFFSETOF_SIZE) (store32 (wrap32 data_bytes)) in
      let buf := write_at buf chunk (take OF_STR64_LEN filename) in
      let buf := write_at buf (chunk + OFFSETOF_DATA) data in
      aim_log LOG_VERBOSE "Uploaded Lua chunk %s, %u bytes"
        [ArgS (Some (c_str filename)); ArgU (wrap32 data_bytes)]
        (set_upload_chunks buf st)
    else st in
  if Z.land flags OFP_BSN_LUA_UPLOAD_MORE =? 0
  then commit_lua_upload cxn_id msg st
  else Ret st.

(** ** message_listener *)

Definition message_listener (cxn_id : Z) (msg : of_object) (st : state)
    : outcome (state * indigo_core_listener_result) :=
  match object_id msg with
  | OF_BSN_LUA_UPLOAD =>
      st ← handle_lua_upload cxn_id msg st;
      Ret (st, INDIGO_CORE_LISTENER_RESULT_DROP)
  | _ => Ret (st, INDIGO_CORE_LISTENER_RESULT_PASS)
  end.


(** ** The contents of the pending buffer, chunk by chunk *)

(** The bytes one [struct upload_chunk] occupies. *)
Definition chunk_image (c : upload_chunk) : list byte :=
  chunk_filename c ++ store32 (chunk_size c) ++ chunk_data c.

Definition pending (cs : list upload_chunk) : xbuf :=
  mjoin (chunk_image <$> cs).

(** The chunk [handle_lua_upload] stores for a message with this filename
    and this (non-empty) payload. *)
Definition stored_chunk (filename data : list byte) : upload_chunk :=
  {| chunk_filename := <[63%nat := x00]> (of_str64 filename);
     chunk_size := wrap32 (Z.of_nat (length data));
     chunk_data := data |}.

(** A chunk whose name fills its 64 bytes and whose size field is the
    length of its data. *)
Definition chunk_wf (c : upload_chunk) : bool :=
  (length (chunk_filename c) =? OF_STR64_LEN)%nat
  && (chunk_size c =? Z.of_nat (length (chunk_data c))).

(** The buffer holds exactly the chunks [cs], and is small enough for a
    32-bit offset to reach its end. *)
Definition holds (st : state) (cs : list upload_chunk) : Prop :=
  upload_chunks st = pending cs
  ∧ forallb chunk_wf cs = true
  ∧ xbuf_length (upload_chunks st) < 2 ^ 32.

(** The chunks taken one by one in arrival order, each through the body of
    the loop, stopping behind the first one that fails; the flag tells
    whether one did. *)
Fixpoint commit_chunks (cxn_id : Z) (msg : of_object) (cs : list upload_chunk)
    (st : state) : outcome (state * bool) :=
  match cs with
  | [] => Ret (st, false)
  | c :: cs' =>
      '(st', stop) ← commit_chunk cxn_id msg c st;
      if stop : bool then Ret (st', true)
      else commit_chunks cxn_id msg cs' st'
  end.

(** An upload, as a filename and a payload, sent with the MORE flag, and
    the chunk it leaves in the buffer. *)
Definition more_message (u : list byte * list byte) : of_object :=
  Of_bsn_lua_upload u.2 OFP_BSN_LUA_UPLOAD_MORE u.1.

Definition stored (u : list byte * list byte) : upload_chunk :=
  stored_chunk u.1 u.2.

(** A run of upload messages arriving on one connection. *)
Fixpoint upload_all (cxn_id : Z) (msgs : list of_object) (st : state)
    : outcome state :=
  match msgs with
  | [] => Ret st
  | m :: msgs' => st' ← handle_lua_upload cxn_id m st; upload_all cxn_id msgs' st'
  end.

(** ** The sandbox *)

(** The table bound to the global name [sandbox], if it is one. *)
Definition sandbox_of (L : lua_State) : option tref :=
  match table_get L (l_gt L) "sandbox" with
  | LTable t => Some t
  | _ => None
  end.

(** The sandbox exists and is not the table of globals itself. *)
Definition sandbox_ready (L : lua_State) : bool :=
  match sandbox_of L with
  | Some t => negb (t =? l_gt L)%nat
  | None => false
  end.

(** The same runtime with another table of globals. *)
Definition with_globals (g : gmap string lua_value) (L : lua_State) : lua_State :=
  set_tables (<[l_gt L := g]> (tables L)) L.






(** The function object the entry-point handle names is still there. *)
Definition entry_point_live (st : state) : bool :=
  match registry (lua st) !! process_ref st with
  | Some (LFunction f) => bool_decide (f < length (closures (lua st)))%nat
  | _ => true
  end.

Definition is_error_reply (e : event) : bool :=
  match e with
  | ErrorReply _ _ _ _ => true
  | Log _ _ _ => false
  end.

Definition error_replies (t : list event) : list event :=
  List.filter is_error_reply t.

(** The two diagnostics that precede an error reply. *)
Definition failure_log (e : event) : Prop :=
  (∃ m, e = Log LOG_ERROR "Failed to load code: %s" [ArgS m])
  ∨ (∃ n m, e = Log LOG_ERROR "Failed to execute code %s: %s" [ArgS n; ArgS m]).

(** ** Runs of messages *)

(** The messages of a run, each with the connection it came on, given to
    the listener one after the other. *)
Fixpoint listener_run (msgs : list (Z * of_object)) (st : state)
    : outcome state :=
  match msgs with
  | [] => Ret st
  | (cxn_id, m) :: msgs' =>
      '(st', _) ← message_listener cxn_id m st;
      listener_run msgs' st'
  end.

(** The message has the MORE bit set. *)
Definition has_more (m : of_object) : bool :=
  negb (Z.land (of_bsn_lua_upload_flags_get m) OFP_BSN_LUA_UPLOAD_MORE =? 0).

(** The bytes a message adds to the buffer: a header and the payload, or
    nothing when the payload is empty. *)
Definition buffered_bytes (m : of_object) : Z :=
  let n := Z.of_nat (length (of_bsn_lua_upload_data_get m)) in
  if 0 <? n then SIZEOF_UPLOAD_CHUNK + n else 0.

Definition run_bytes (msgs : list of_object) : Z :=
  foldr (λ m acc, buffered_bytes m + acc) 0 msgs.

(** The line the commit loop logs when it comes to a chunk. *)
Definition loading_log (c : upload_chunk) : event :=
  Log LOG_VERBOSE "Loading Lua chunk %s, %u bytes"
    [ArgS (Some (c_str (chunk_filename c))); ArgU (chunk_size c)].

(** ** The runtime's verdict on a chunk *)

(** The source text and the name [luaL_loadbuffer] is given for a chunk. *)
Definition chunk_source (c : upload_chunk) : list byte :=
  take (Z.to_nat (chunk_size c)) (chunk_data c).

Definition chunk_name (c : upload_chunk) : string :=
  c_str (chunk_filename c).

(** What becomes of a chunk: the compiler refuses it, or it compiles and
    its top-level code, run in the environment [sb], comes to its end or
    raises an error. *)
Inductive chunk_verdict : Type :=
| Runs (L' : lua_State)
| CompileFails (m : string)
| RunFails (L' : lua_State) (m : string).

Definition verdict (sb : tref) (c : upload_chunk) (L : lua_State)
  : chunk_verdict :=
  match lua_load (chunk_source c) (chunk_name c) with
  | inr m => CompileFails m
  | inl code =>
      match lua_execute code sb
              (set_closures (closures L ++ [{| body := code; fenv := sb |}]) L)
      with
      | (L', None) => Runs L'
      | (L', Some m) => RunFails L' m
      end
  end.

Definition verdict_fails (v : chunk_verdict) : bool :=
  match v with
  | Runs _ => false
  | CompileFails _ | RunFails _ _ => true
  end.

(** The tables and function objects the runtime has once the verdict is
    in: those it had for a chunk that did not compile, those the run left
    otherwise. *)
Definition verdict_runtime (L : lua_State) (v : chunk_verdict) : lua_State :=
  match v with
  | Runs L' => L'
  | CompileFails _ => L
  | RunFails L' _ => L'
  end.

(** Every chunk of [cs], taken in order from the runtime [L], compiles and
    runs to its end; the runtime the last one leaves. *)
Fixpoint all_run (sb : tref) (cs : list upload_chunk) (L : lua_State)
  : option lua_State :=
  match cs with
  | [] => Some L
  | c :: cs' =>
      match verdict sb c L with
      | Runs L' => all_run sb cs' L'
      | CompileFails _ | RunFails _ _ => None
      end
  end.

(** How many chunks of [cs] get their verdict: all of them, or those up to
    and including the first that fails. *)
Fixpoint walked (sb : tref) (cs : list upload_chunk) (L : lua_State) : nat :=
  match cs with
  | [] => 0
  | c :: cs' =>
      match verdict sb c L with
      | Runs L' => S (walked sb cs' L')
      | CompileFails _ | RunFails _ _ => 1
      end
  end.

(** The lines of the log that the commit loop writes on coming to a chunk. *)
Definition is_loading_log (e : event) : bool :=
  match e with
  | Log LOG_VERBOSE fmt _ => String.eqb fmt "Loading Lua chunk %s, %u bytes"
  | _ => false
  end.

Definition the_error_reply (cxn_id : Z) (msg : of_object) : event :=
  ErrorReply cxn_id msg OF_ERROR_TYPE_BAD_REQUEST OF_REQUEST_FAILED_EPERM.

End Pipeline.

(** ** A small host to run the definitions on *)

Definition bytes (s : string) : list byte := String.list_byte_of_string s.

(** A stand-in compiler that knows five source texts. *)
Definition demo_load (src : list byte) (name : string) : lua_code + string :=
  if String.eqb (String.string_of_list_byte src) "function process() end"
  then inl (CClosure CReturn (λ f, CSetGlobal "process" f CReturn))
  else if String.eqb (String.string_of_list_byte src) "x = y"
  then inl (CGetGlobal "y" (λ v, CSetGlobal "x" v CReturn))
  else if String.eqb (String.string_of_list_byte src) "x = _G.secret"
  then inl (CGetGlobal "_G" (λ t,
              CIndex t "secret" (λ v, CSetGlobal "x" v CReturn)))
  else if String.eqb (String.string_of_list_byte src) "error('boom')"
  then inl (CError "boom")
  else if String.eqb (String.string_of_list_byte src) "return"
  then inl CReturn
  else inr (name +:+ ": syntax error").

#[local] Instance demo_host : Host := {|
  ind_ovs_parsed_key := Z;
  fields := Z;
  stats_xbuf := unit;
  action_context := unit;
  pipeline_lua_fields_from_key := λ key, key;
  lua_load := demo_load
|}.

(** Globals in table 0 with [sandbox] bound to table 1, which binds [y];
    function 0 is an entry point that raises, function 1 one that returns. *)
Definition demo_lua : lua_State :=
  {| stack := [];
     tables := {[ 0%nat := {[ "sandbox" := LTable 1%nat; "secret" := LString "s" ]};
                  1%nat := {[ "y" := LString "why" ]} ]};
     l_gt := 0%nat;
     registry := {[ 1 := LFunction 0%nat; 2 := LFunction 1%nat ]};
     closures := [ {| body := CError "bad packet"; fenv := 0%nat |};
                   {| body := CReturn; fenv := 0%nat |} ] |}.

Definition demo_state : state :=
  {| lua := demo_lua;
     context := {| stats := (); actx := (); ctx_fields := 0 |};
     process_ref := 1;
     upload_chunks := [];
     trace := [] |}.

(** Three chunks waiting in the buffer: the first runs, the second raises
    an error when run, the third would run. *)
Definition demo_chunks : list upload_chunk :=
  [stored (bytes "a.lua", bytes "x = y");
   stored (bytes "b.lua", bytes "error('boom')");
   stored (bytes "c.lua", bytes "return")].

Definition demo_pending : state :=
  set_upload_chunks (pending demo_chunks) demo_state.

(** An upload message with no payload and no MORE flag. *)
Definition demo_terminal : of_object :=
  Of_bsn_lua_upload [] 0 (bytes "c.lua").

(** The runtime after the first of them, and after the second. *)
Definition demo_after_first : state :=
  Eval vm_compute in
    match commit_chunks 7 demo_terminal (take 1 demo_chunks) demo_pending with
    | Ret (s, _) => s
    | _ => demo_pending
    end.

Definition demo_after_second : state :=
  Eval vm_compute in
    match commit_chunk 7 demo_terminal
            (stored (bytes "b.lua", bytes "error('boom')")) demo_after_first with
    | Ret (s, _) => s
    | _ => demo_pending
    end.

(** The same host with a handle that names no function, and with no
    sandbox among the globals. *)
Definition demo_no_entry : state :=
  {| lua := demo_lua;
     context := {| stats := (); actx := (); ctx_fields := 0 |};
     process_ref := 9;
     upload_chunks := [];
     trace := [] |}.

Definition demo_no_sandbox : state :=
  set_lua (with_globals {[ "secret" := LString "s" ]} demo_lua) demo_state.

(** A run on three connections: a chunk, a message of another type, and a
    last chunk that ends the upload. *)
Definition demo_run : list (Z * of_object) :=
  [(7, Of_bsn_lua_upload (bytes "x = y") OFP_BSN_LUA_UPLOAD_MORE (bytes "a.lua"));
   (8, Of_other 3 []);
   (9, Of_bsn_lua_upload (bytes "return") 0 (bytes "b.lua"))].

(** Three chunks of which the second does not compile. *)
Definition demo_chunks_bad : list upload_chunk :=
  [stored (bytes "a.lua", bytes "x = y");
   stored (bytes "b.lua", bytes "x = ");
   stored (bytes "c.lua", bytes "return")].

Definition demo_pending_bad : state :=
  set_upload_chunks (pending demo_chunks_bad) demo_state.



(** The state that the run above ends in. *)
Definition demo_run_end : state :=
  Eval vm_compute in
    match listener_run demo_run demo_state with
    | Ret s => s
    | _ => demo_state
    end.

(** * Facts *)

(** ** Bytes and 32-bit fields *)

Lemma Z_of_byte_of_Z (z : Z) : Z_of_byte (byte_of_Z z) = z mod 256.
Proof.
  unfold Z_of_byte, byte_of_Z.
  assert (Hr : 0 ≤ z mod 256 < 256) by (apply Z.mod_pos_bound; lia).
  pose proof (Byte.to_of_N_option_map (Z.to_N (z mod 256))) as Hm.
  destruct (Byte.of_N (Z.to_N (z mod 256))) as [b|] eqn:Hb; simpl in *.
  - destruct (Z.to_N (z mod 256) <=? 255)%N; [|discriminate].
    injection Hm as ->. lia.
  - destruct (Z.to_N (z mod 256) <=? 255)%N eqn:Hle; [discriminate|].
    apply N.leb_gt in Hle. lia.
Qed.

Lemma load32_store32 (z : Z) : 0 ≤ z < 2 ^ 32 → load32 (store32 z) = z.
Proof.
  intros Hz. unfold load32, store32. rewrite !Z_of_byte_of_Z.
  change 256 with (2 ^ 8).
  apply Z.bits_inj'. intros n Hn.
  rewrite !Z.lor_spec.
  rewrite !Z.shiftl_spec by lia.
  destruct (Z_lt_dec n 8).
  { rewrite Z.mod_pow2_bits_low by lia.
    rewrite !(Z.testbit_neg_r _ (n - _)) by lia. by rewrite !orb_false_r. }
  rewrite (Z.mod_pow2_bits_high z) by lia. simpl.
  destruct (Z_lt_dec n 16).
  { rewrite Z.mod_pow2_bits_low by lia. rewrite Z.shiftr_spec by lia.
    rewrite !(Z.testbit_neg_r _ (n - _)) by lia.
    rewrite !orb_false_r. f_equal. lia. }
  rewrite (Z.mod_pow2_bits_high _ 8 (n - 8)) by lia. simpl.
  destruct (Z_lt_dec n 24).
  { rewrite Z.mod_pow2_bits_low by lia. rewrite Z.shiftr_spec by lia.
    rewrite !(Z.testbit_neg_r _ (n - _)) by lia.
    rewrite !orb_false_r. f_equal. lia. }
  rewrite (Z.mod_pow2_bits_high _ 8 (n - 16)) by lia. simpl.
  destruct (Z_lt_dec n 32).
  { rewrite Z.mod_pow2_bits_low by lia. rewrite Z.shiftr_spec by lia.
    f_equal. lia. }
  rewrite (Z.mod_pow2_bits_high _ 8 (n - 24)) by lia.
  symmetry. rewrite <- (Z.mod_small z (2 ^ 32)) by lia.
  apply Z.mod_pow2_bits_high. lia.
Qed.

Lemma length_store32 (z : Z) : length (store32 z) = 4%nat.
Proof. reflexivity. Qed.

Lemma length_of_str64 (bs : list byte) : length (of_str64 bs) = OF_STR64_LEN.
Proof.
  unfold of_str64. rewrite length_take, length_app, length_replicate. lia.
Qed.

Lemma write_at_fill (pre old src post : list byte) :
  length old = length src →
  write_at (pre ++ old ++ post) (length pre) src = pre ++ src ++ post.
Proof.
  intros Hl. unfold write_at.
  rewrite take_app_length. f_equal. f_equal.
  rewrite drop_app_ge by lia.
  replace (length pre + length src - length pre)%nat with (length old) by lia.
  by rewrite drop_app_length.
Qed.

Lemma store_chunk_bytes (b fname data : list byte) (sz : Z) :
  length fname = OF_STR64_LEN →
  write_at
    (write_at
       (write_at (b ++ replicate (68 + length data) x00)
          (length b + OFFSETOF_SIZE) (store32 sz))
       (length b) fname)
    (length b + OFFSETOF_DATA) data
  = b ++ fname ++ store32 sz ++ data.
Proof.
  intros Hf. unfold OF_STR64_LEN, OFFSETOF_SIZE, OFFSETOF_DATA in *.
  replace (68 + length data)%nat with (64 + (4 + length data))%nat by lia.
  rewrite !replicate_add.
  set (z64 := replicate 64 x00). set (z4 := replicate 4 x00).
  set (zn := replicate (length data) x00).
  assert (H64 : length z64 = 64%nat) by apply length_replicate.
  assert (H4 : length z4 = 4%nat) by apply length_replicate.
  assert (Hn : length zn = length data) by apply length_replicate.
  replace (b ++ z64 ++ z4 ++ zn) with ((b ++ z64) ++ z4 ++ zn)
    by (by rewrite <- app_assoc).
  replace (length b + 64)%nat with (length (b ++ z64))
    by (rewrite length_app; lia).
  rewrite write_at_fill by (by rewrite length_store32).
  rewrite <- app_assoc.
  rewrite write_at_fill by lia.
  replace (b ++ fname ++ store32 sz ++ zn)
    with ((b ++ fname ++ store32 sz) ++ zn ++ [])
    by (by rewrite app_nil_r, <- !app_assoc).
  replace (length b + 68)%nat with (length (b ++ fname ++ store32 sz))
    by (rewrite !length_app, length_store32; lia).
  rewrite write_at_fill by lia.
  by rewrite app_nil_r, <- !app_assoc.
Qed.

Section Facts.
Context `{Host}.

(** ** What [handle_lua_upload] leaves in the buffer *)

Lemma length_stored_filename (filename data : list byte) :
  length (chunk_filename (stored_chunk filename data)) = OF_STR64_LEN.
Proof. simpl. by rewrite length_insert, length_of_str64. Qed.

(** The state once the message's chunk, if it has one, is in the buffer. *)
Lemma handle_lua_upload_eq (cxn_id : Z) (data : list byte) (flags : Z)
    (filename : list byte) (st : state) :
  handle_lua_upload cxn_id (Of_bsn_lua_upload data flags filename) st =
  let c := stored_chunk filename data in
  let st1 :=
    match data with
    | [] => st
    | _ :: _ =>
        aim_log LOG_VERBOSE "Uploaded Lua chunk %s, %u bytes"
          [ArgS (Some (c_str (chunk_filename c))); ArgU (chunk_size c)]
          (set_upload_chunks (upload_chunks st ++ chunk_image c) st)
    end in
  if Z.land (wrap16 flags) OFP_BSN_LUA_UPLOAD_MORE =? 0
  then commit_lua_upload cxn_id (Of_bsn_lua_upload data flags filename) st1
  else Ret st1.
Proof.
  unfold handle_lua_upload. cbn zeta.
  cbn [of_bsn_lua_upload_data_get of_bsn_lua_upload_flags_get
       of_bsn_lua_upload_filename_get].
  destruct data as [|d data]; [reflexivity|].
  set (dd := d :: data).
  replace (0 <? Z.of_nat (length dd)) with true
    by (symmetry; apply Z.ltb_lt; subst dd; simpl length; lia).
  unfold xbuf_reserve, SIZEOF_UPLOAD_CHUNK.
  replace (Z.to_nat (68 + Z.of_nat (length dd))) with (68 + length dd)%nat by lia.
  rewrite (take_ge (<[63%nat:=x00]> (of_str64 filename)))
    by (rewrite length_insert, length_of_str64; reflexivity).
  rewrite store_chunk_bytes
    by (rewrite length_insert; apply length_of_str64).
  reflexivity.
Qed.

Lemma handle_lua_upload_nonempty (cxn_id : Z) (data : list byte) (flags : Z)
    (filename : list byte) (st : state) :
  data ≠ [] →
  handle_lua_upload cxn_id (Of_bsn_lua_upload data flags filename) st =
  let c := stored_chunk filename data in
  let st1 :=
    aim_log LOG_VERBOSE "Uploaded Lua chunk %s, %u bytes"
      [ArgS (Some (c_str (chunk_filename c))); ArgU (chunk_size c)]
      (set_upload_chunks (upload_chunks st ++ chunk_image c) st) in
  if Z.land (wrap16 flags) OFP_BSN_LUA_UPLOAD_MORE =? 0
  then commit_lua_upload cxn_id (Of_bsn_lua_upload data flags filename) st1
  else Ret st1.
Proof. intros Hne. rewrite handle_lua_upload_eq. by destruct data. Qed.

(** ** Walking the buffer *)

Lemma chunk_wf_spec (c : upload_chunk) :
  chunk_wf c = true →
  length (chunk_filename c) = OF_STR64_LEN
  ∧ chunk_size c = Z.of_nat (length (chunk_data c)).
Proof.
  unfold chunk_wf. intros [H1 H2]%andb_prop.
  apply Nat.eqb_eq in H1. apply Z.eqb_eq in H2. done.
Qed.

Lemma length_chunk_image (c : upload_chunk) :
  chunk_wf c = true →
  Z.of_nat (length (chunk_image c)) = SIZEOF_UPLOAD_CHUNK + chunk_size c.
Proof.
  intros [Hf Hs]%chunk_wf_spec. unfold chunk_image, SIZEOF_UPLOAD_CHUNK.
  rewrite !length_app, length_store32, Hf, Hs. unfold OF_STR64_LEN. lia.
Qed.

Lemma chunk_at_image (pre rest : list byte) (c : upload_chunk) :
  chunk_wf c = true →
  chunk_size c < 2 ^ 32 →
  chunk_at (pre ++ chunk_image c ++ rest) (Z.of_nat (length pre)) = Ret c.
Proof.
  intros Hwf Hlt. pose proof (length_chunk_image c Hwf) as Hlen.
  destruct (chunk_wf_spec c Hwf) as [Hf Hs].
  destruct c as [fname sz data].
  unfold chunk_at, xbuf_length, chunk_image in *.
  cbn [chunk_filename chunk_size chunk_data] in *.
  unfold SIZEOF_UPLOAD_CHUNK in *.
  rewrite Nat2Z.id.
  assert (Hd1 : drop (length pre + OFFSETOF_SIZE)
                  (pre ++ (fname ++ store32 sz ++ data) ++ rest)
                = store32 sz ++ data ++ rest).
  { rewrite drop_app_ge by lia.
    replace (length pre + OFFSETOF_SIZE - length pre)%nat with (length fname)
      by (unfold OFFSETOF_SIZE, OF_STR64_LEN in *; lia).
    rewrite <- !app_assoc. by rewrite drop_app_length. }
  assert (Hd2 : drop (length pre + OFFSETOF_DATA)
                  (pre ++ (fname ++ store32 sz ++ data) ++ rest)
                = data ++ rest).
  { rewrite drop_app_ge by lia.
    replace (length pre + OFFSETOF_DATA - length pre)%nat
      with (length (fname ++ store32 sz))
      by (rewrite length_app, length_store32;
          unfold OFFSETOF_DATA, OF_STR64_LEN in *; lia).
    replace ((fname ++ store32 sz ++ data) ++ rest)
      with ((fname ++ store32 sz) ++ data ++ rest)
      by (by rewrite <- !app_assoc).
    by rewrite drop_app_length. }
  rewrite Hd1, Hd2.
  replace (take 4 (store32 sz ++ data ++ rest)) with (store32 sz)
    by reflexivity.
  rewrite load32_store32 by lia.
  rewrite !length_app in *.
  rewrite (proj2 (Z.leb_le _ _)) by lia.
  rewrite (proj2 (Z.leb_le _ _)) by lia.
  rewrite drop_app_length.
  rewrite <- app_assoc, <- Hf, take_app_length.
  by rewrite Hs, Nat2Z.id, take_app_length.
Qed.

Lemma commit_chunk_buffer (cxn_id : Z) (msg : of_object) (c : upload_chunk)
    (st st' : state) (b : bool) :
  commit_chunk cxn_id msg c st = Ret (st', b) →
  upload_chunks st' = upload_chunks st.
Proof.
  unfold commit_chunk.
  destruct (luaL_loadbuffer _ _ _ _) as [L rc].
  destruct (negb (rc =? 0)); simpl.
  { intros [= <- <-]. reflexivity. }
  destruct (lua_setfenv _ _) as [[L1 z]| |]; simpl; try discriminate.
  destruct (lua_pcall _) as [[L2 rc2]| |]; simpl; try discriminate.
  destruct (negb (rc2 =? 0)); intros [= <- <-]; reflexivity.
Qed.

Lemma pending_cons (c : upload_chunk) (cs : list upload_chunk) :
  pending (c :: cs) = chunk_image c ++ pending cs.
Proof. reflexivity. Qed.

Lemma pending_app (cs1 cs2 : list upload_chunk) :
  pending (cs1 ++ cs2) = pending cs1 ++ pending cs2.
Proof.
  induction cs1 as [|c cs1 IH]; [reflexivity|].
  rewrite <- app_comm_cons, !pending_cons, IH. by rewrite app_assoc.
Qed.

Lemma length_stored_image (filename data : list byte) :
  length (chunk_image (stored_chunk filename data)) = (68 + length data)%nat.
Proof.
  unfold chunk_image. rewrite !length_app, length_store32.
  rewrite length_stored_filename. reflexivity.
Qed.

Lemma stored_chunk_wf (filename data : list byte) :
  Z.of_nat (length data) < 2 ^ 32 → chunk_wf (stored_chunk filename data) = true.
Proof.
  intros Hlt. unfold chunk_wf. rewrite length_stored_filename.
  rewrite Nat.eqb_refl. simpl. unfold wrap32.
  rewrite Z.mod_small by lia. apply Z.eqb_refl.
Qed.

Lemma length_pending_ge (cs : list upload_chunk) :
  forallb chunk_wf cs = true → (length cs ≤ length (pending cs))%nat.
Proof.
  induction cs as [|c cs IH]; [simpl; lia|].
  cbn [forallb]. intros [Hc Hcs]%andb_prop.
  rewrite pending_cons, length_app. specialize (IH Hcs).
  pose proof (length_chunk_image c Hc) as Hl.
  destruct (chunk_wf_spec c Hc) as [_ Hs]. unfold SIZEOF_UPLOAD_CHUNK in Hl.
  cbn [length]. lia.
Qed.

(** The byte-offset loop over a well-formed buffer is the chunk-by-chunk
    walk. *)
Lemma commit_loop_pending (cxn_id : Z) (msg : of_object)
    (cs : list upload_chunk) :
  ∀ (fuel : nat) (pre : list byte) (st : state),
    upload_chunks st = pre ++ pending cs →
    forallb chunk_wf cs = true →
    xbuf_length (upload_chunks st) < 2 ^ 32 →
    (length cs ≤ fuel)%nat →
    commit_loop fuel cxn_id msg (Z.of_nat (length pre)) st
    = fst <$> commit_chunks cxn_id msg cs st.
Proof.
  induction cs as [|c cs IH]; intros fuel pre st Hbuf Hwf Hlt Hfuel.
  - unfold pending in Hbuf. simpl in Hbuf. rewrite app_nil_r in Hbuf.
    destruct fuel; simpl; unfold xbuf_length; rewrite Hbuf;
      rewrite (proj2 (Z.ltb_ge _ _)) by lia; reflexivity.
  - simpl in Hwf. apply andb_prop in Hwf as [Hc Hcs].
    pose proof (length_chunk_image c Hc) as Hl.
    destruct (chunk_wf_spec c Hc) as [_ Hs].
    assert (Hbuf' : upload_chunks st = pre ++ chunk_image c ++ pending cs)
      by (rewrite Hbuf; reflexivity).
    assert (Hlen : xbuf_length (upload_chunks st)
                   = Z.of_nat (length pre) + (SIZEOF_UPLOAD_CHUNK + chunk_size c)
                     + Z.of_nat (length (pending cs))).
    { unfold xbuf_length. rewrite Hbuf', !length_app. lia. }
    assert (Hsz : chunk_size c < 2 ^ 32)
      by (unfold SIZEOF_UPLOAD_CHUNK in *; lia).
    destruct fuel as [|fuel]; [simpl in Hfuel; lia|].
    simpl commit_loop. simpl commit_chunks.
    rewrite (proj2 (Z.ltb_lt _ _))
      by (rewrite Hlen; unfold SIZEOF_UPLOAD_CHUNK; lia).
    rewrite Hbuf', chunk_at_image by done. simpl.
    destruct (commit_chunk cxn_id msg c st) as [[st' stop]| |] eqn:Hstep;
      simpl; try reflexivity.
    destruct stop; [reflexivity|].
    pose proof (commit_chunk_buffer _ _ _ _ _ _ Hstep) as Hsame.
    unfold wrap32. rewrite Z.mod_small
      by (unfold SIZEOF_UPLOAD_CHUNK in *; lia).
    replace (Z.of_nat (length pre) + (SIZEOF_UPLOAD_CHUNK + chunk_size c))
      with (Z.of_nat (length (pre ++ chunk_image c)))
      by (rewrite length_app; lia).
    apply IH.
    + rewrite Hsame, Hbuf'. by rewrite <- app_assoc.
    + done.
    + by rewrite Hsame.
    + simpl in Hfuel. lia.
Qed.

(** ** The script runtime *)

Lemma set_stack_same (L : lua_State) : set_stack (stack L) L = L.
Proof. by destruct L. Qed.

(** Running code in an environment other than the table of globals leaves
    that table, the stack and the registry as they were, and only adds
    function objects. *)
Lemma lua_execute_frame (c : lua_code) :
  ∀ (env : tref) (L L' : lua_State) (r : option string),
    lua_execute c env L = (L', r) →
    env ≠ l_gt L →
    l_gt L' = l_gt L
    ∧ tables L' !! l_gt L = tables L !! l_gt L
    ∧ stack L' = stack L
    ∧ registry L' = registry L
    ∧ ∃ more, closures L' = closures L ++ more.
Proof.
  induction c as [|msg|name k IH|name v k IH|v key k IH|b _ k IH];
    intros env L L' r Hrun Hne; simpl in Hrun.
  - injection Hrun as <- <-. repeat split; try done. exists []. by rewrite app_nil_r.
  - injection Hrun as <- <-. repeat split; try done. exists []. by rewrite app_nil_r.
  - by apply IH in Hrun.
  - apply IH in Hrun; [|done]. simpl in Hrun.
    destruct Hrun as (Hgt & Htb & Hst & Hrg & Hcl).
    repeat split; try done.
    by rewrite Htb, lookup_insert_ne.
  - destruct v as [|s|t|f]; [| |by apply IH in Hrun|];
      (injection Hrun as <- <-; repeat split; try done;
       exists []; by rewrite app_nil_r).
  - apply IH in Hrun; [|done]. simpl in Hrun.
    destruct Hrun as (Hgt & Htb & Hst & Hrg & more & Hcl).
    repeat split; try done.
    eexists. rewrite Hcl, <- app_assoc. reflexivity.
Qed.

Lemma sandbox_of_frame (L L' : lua_State) :
  l_gt L' = l_gt L →
  tables L' !! l_gt L = tables L !! l_gt L →
  sandbox_of L' = sandbox_of L.
Proof.
  intros Hgt Htb. unfold sandbox_of, table_get, table_of. by rewrite Hgt, Htb.
Qed.

Lemma sandbox_ready_spec (L : lua_State) :
  sandbox_ready L = true ↔ ∃ sb, sandbox_of L = Some sb ∧ sb ≠ l_gt L.
Proof.
  unfold sandbox_ready. destruct (sandbox_of L) as [t|]; split.
  - intros Hn. exists t. split; [done|].
    apply negb_true_iff, Nat.eqb_neq in Hn. done.
  - intros (sb & [= <-] & Hne). by apply negb_true_iff, Nat.eqb_neq.
  - discriminate.
  - intros (sb & Hsb & _). discriminate.
Qed.

(** What one turn of the loop does, told by the compiler's verdict and by
    how the compiled code runs: the code runs with the sandbox as its
    environment. *)
Lemma commit_chunk_spec (cxn_id : Z) (msg : of_object) (c : upload_chunk)
    (st : state) (sb : tref) :
  sandbox_of (lua st) = Some sb →
  commit_chunk cxn_id msg c st =
  let name := c_str (chunk_filename c) in
  let st0 := aim_log LOG_VERBOSE "Loading Lua chunk %s, %u bytes"
               [ArgS (Some name); ArgU (chunk_size c)] st in
  match lua_load (take (Z.to_nat (chunk_size c)) (chunk_data c)) name with
  | inr m =>
      Ret (indigo_cxn_send_error_reply cxn_id msg
             OF_ERROR_TYPE_BAD_REQUEST OF_REQUEST_FAILED_EPERM
             (aim_log LOG_ERROR "Failed to load code: %s" [ArgS (Some m)]
                (set_lua (lua_push (LString m) (lua st)) st0)),
           true)
  | inl code =>
      let '(L1, r) :=
        lua_execute code sb
          (set_closures (closures (lua st) ++ [{| body := code; fenv := sb |}])
             (lua st)) in
      match r with
      | None => Ret (set_lua L1 st0, false)
      | Some m =>
          Ret (indigo_cxn_send_error_reply cxn_id msg
                 OF_ERROR_TYPE_BAD_REQUEST OF_REQUEST_FAILED_EPERM
                 (aim_log LOG_ERROR "Failed to execute code %s: %s"
                    [ArgS (Some name); ArgS (Some m)]
                    (set_lua (lua_push (LString m) L1) st0)),
               true)
      end
  end.
Proof.
  intros Hsb. destruct st as [L ctx pref buf tr].
  destruct L as [stk tbl gt reg cls].
  unfold sandbox_of, table_get, table_of in Hsb. simpl in Hsb.
  unfold commit_chunk, luaL_loadbuffer. simpl.
  destruct (lua_load _ _) as [code|m]; simpl; [|reflexivity].
  unfold lua_getglobal, table_get, table_of. simpl.
  destruct (default LNil (default ∅ (tbl !! gt) !! "sandbox")) as [| |t|];
    try discriminate.
  injection Hsb as ->.
  unfold lua_setfenv, index2adr. simpl.
  rewrite list_lookup_middle by done. simpl.
  unfold lua_pcall. simpl.
  rewrite insert_app_r_alt by done. rewrite Nat.sub_diag. simpl.
  rewrite list_lookup_middle by done. simpl.
  unfold set_closures, set_stack. simpl.
  destruct (lua_execute code sb _) as [L1 [m|]]; reflexivity.
Qed.







Lemma commit_chunk_sandbox (cxn_id : Z) (msg : of_object) (c : upload_chunk)
    (st st' : state) (b : bool) (sb : tref) :
  sandbox_of (lua st) = Some sb →
  sb ≠ l_gt (lua st) →
  commit_chunk cxn_id msg c st = Ret (st', b) →
  sandbox_of (lua st') = Some sb ∧ l_gt (lua st') = l_gt (lua st).
Proof.
  intros Hsb Hne. rewrite (commit_chunk_spec _ _ _ st sb) by done. cbn zeta.
  destruct (lua_load _ _) as [code|m].
  - destruct (lua_execute code sb _) as [L1 r] eqn:Hrun.
    apply lua_execute_frame in Hrun; [|done]. simpl in Hrun.
    destruct Hrun as (Hgt & Htb & _).
    assert (sandbox_of L1 = Some sb)
      by (rewrite <- Hsb; by apply sandbox_of_frame).
    destruct r as [m|]; intros [= <- <-]; simpl; done.
  - intros [= <- <-]. simpl. done.
Qed.

(** With the sandbox in place every turn of the loop returns. *)
Lemma commit_chunk_returns (cxn_id : Z) (msg : of_object) (c : upload_chunk)
    (st : state) :
  sandbox_ready (lua st) = true →
  ∃ st' b, commit_chunk cxn_id msg c st = Ret (st', b)
           ∧ sandbox_ready (lua st') = true.
Proof.
  intros (sb & Hsb & Hne)%sandbox_ready_spec.
  destruct (commit_chunk cxn_id msg c st) as [[st' b]| |] eqn:Hstep.
  - exists st', b. split; [done|].
    destruct (commit_chunk_sandbox _ _ _ _ _ _ _ Hsb Hne Hstep) as [Hsb' Hgt].
    apply sandbox_ready_spec. exists sb. by rewrite Hgt.
  - rewrite (commit_chunk_spec _ _ _ st sb) in Hstep by done. cbn zeta in Hstep.
    destruct (lua_load _ _); [|discriminate].
    by destruct (lua_execute _ _ _) as [L1 [m|]].
  - rewrite (commit_chunk_spec _ _ _ st sb) in Hstep by done. cbn zeta in Hstep.
    destruct (lua_load _ _); [|discriminate].
    by destruct (lua_execute _ _ _) as [L1 [m|]].
Qed.

Lemma commit_chunks_returns (cxn_id : Z) (msg : of_object)
    (cs : list upload_chunk) :
  ∀ st, sandbox_ready (lua st) = true →
        ∃ st' b, commit_chunks cxn_id msg cs st = Ret (st', b).
Proof.
  induction cs as [|c cs IH]; intros st Hrdy; simpl.
  - by exists st, false.
  - destruct (commit_chunk_returns cxn_id msg c st Hrdy) as (st1 & b & -> & Hrdy1).
    simpl. destruct b; [by exists st1, true|]. by apply IH.
Qed.


(** ** Commit, chunk by chunk *)

Lemma commit_lua_upload_holds (cxn_id : Z) (msg : of_object) (st : state)
    (cs : list upload_chunk) :
  holds st cs →
  commit_lua_upload cxn_id msg st
  = (λ r, cleanup_lua_upload r.1) <$> commit_chunks cxn_id msg cs st.
Proof.
  intros (Hbuf & Hwf & Hlt). unfold commit_lua_upload.
  rewrite (commit_loop_pending cxn_id msg cs _ [] st); try done.
  - by destruct (commit_chunks cxn_id msg cs st) as [[s b]| |].
  - rewrite Hbuf. pose proof (length_pending_ge cs Hwf). lia.
Qed.

Lemma commit_chunks_app (cxn_id : Z) (msg : of_object)
    (cs1 cs2 : list upload_chunk) :
  ∀ st s1, commit_chunks cxn_id msg cs1 st = Ret (s1, false) →
           commit_chunks cxn_id msg (cs1 ++ cs2) st
           = commit_chunks cxn_id msg cs2 s1.
Proof.
  induction cs1 as [|c cs1 IH]; intros st s1; simpl.
  - by intros [= ->].
  - destruct (commit_chunk cxn_id msg c st) as [[st' stop]| |]; simpl;
      try discriminate.
    destruct stop; [discriminate|]. apply IH.
Qed.

Lemma error_replies_app (t1 t2 : list event) :
  error_replies (t1 ++ t2) = error_replies t1 ++ error_replies t2.
Proof. apply List.filter_app. Qed.

Lemma commit_chunk_trace (cxn_id : Z) (msg : of_object) (c : upload_chunk)
    (st st' : state) (b : bool) :
  commit_chunk cxn_id msg c st = Ret (st', b) →
  ∃ new,
    trace st' = trace st ++ new
    ∧ error_replies new
      = (if b then [ErrorReply cxn_id msg OF_ERROR_TYPE_BAD_REQUEST
                      OF_REQUEST_FAILED_EPERM] else [])
    ∧ (if b then
         ∃ pre e, new = pre ++ [e; ErrorReply cxn_id msg OF_ERROR_TYPE_BAD_REQUEST
                                     OF_REQUEST_FAILED_EPERM]
                  ∧ failure_log e
       else True).
Proof.
  unfold commit_chunk.
  destruct (luaL_loadbuffer _ _ _ _) as [L rc].
  destruct (negb (rc =? 0)); simpl.
  { intros [= <- <-]. simpl. eexists. split; [by rewrite <- !app_assoc|].
    split; [reflexivity|]. eexists [_], _. split; [reflexivity|].
    left. by eexists. }
  destruct (lua_setfenv _ _) as [[L1 z]| |]; simpl; try discriminate.
  destruct (lua_pcall _) as [[L2 rc2]| |]; simpl; try discriminate.
  destruct (negb (rc2 =? 0)); intros [= <- <-]; simpl.
  - eexists. split; [by rewrite <- !app_assoc|].
    split; [reflexivity|]. eexists [_], _. split; [reflexivity|].
    right. by eexists _, _.
  - eexists. split; [reflexivity|]. done.
Qed.

Lemma commit_chunks_trace (cxn_id : Z) (msg : of_object)
    (cs : list upload_chunk) :
  ∀ (st st' : state) (b : bool),
    commit_chunks cxn_id msg cs st = Ret (st', b) →
    ∃ new,
      trace st' = trace st ++ new
      ∧ error_replies new
        = (if b then [ErrorReply cxn_id msg OF_ERROR_TYPE_BAD_REQUEST
                        OF_REQUEST_FAILED_EPERM] else [])
      ∧ (if b then
           ∃ pre e, new = pre ++ [e; ErrorReply cxn_id msg
                                       OF_ERROR_TYPE_BAD_REQUEST
                                       OF_REQUEST_FAILED_EPERM]
                    ∧ failure_log e
         else True).
Proof.
  induction cs as [|c cs IH]; intros st st' b; simpl.
  - intros [= <- <-]. exists []. by rewrite app_nil_r.
  - destruct (commit_chunk cxn_id msg c st) as [[s1 stop]| |] eqn:Hstep;
      simpl; try discriminate.
    destruct (commit_chunk_trace _ _ _ _ _ _ Hstep) as (new1 & Ht1 & Hr1 & Hs1).
    destruct stop.
    + intros [= <- <-]. by exists new1.
    + intros Hrest. destruct (IH _ _ _ Hrest) as (new2 & Ht2 & Hr2 & Hs2).
      exists (new1 ++ new2). split; [by rewrite Ht2, Ht1, app_assoc|].
      split; [by rewrite error_replies_app, Hr1, Hr2|].
      destruct b; [|done].
      destruct Hs2 as (pre & e & -> & He).
      exists (new1 ++ pre), e. by rewrite app_assoc.
Qed.

Lemma commit_lua_upload_buffer (cxn_id : Z) (msg : of_object) (st st' : state) :
  commit_lua_upload cxn_id msg st = Ret st' → upload_chunks st' = [].
Proof.
  unfold commit_lua_upload.
  destruct (commit_loop _ _ _ _ st) as [s| |]; simpl; try discriminate.
  by intros [= <-].
Qed.

(** What [handle_lua_upload] writes keeps the buffer a sequence of
    well-formed chunks, as long as it stays below 2^32 bytes: every state the
    listener can reach from an empty buffer is one the facts on commit below
    speak about. *)
Lemma message_listener_holds (cxn_id : Z) (msg : of_object) (st st' : state)
    (cs : list upload_chunk) (r : indigo_core_listener_result) :
  holds st cs →
  xbuf_length (upload_chunks st) + SIZEOF_UPLOAD_CHUNK
    + Z.of_nat (length (of_bsn_lua_upload_data_get msg)) < 2 ^ 32 →
  message_listener cxn_id msg st = Ret (st', r) →
  ∃ cs', holds st' cs'.
Proof.
  intros (Hbuf & Hwf & Hlt) Hroom.
  destruct msg as [data flags filename|id body]; unfold message_listener; simpl.
  - simpl in Hroom. rewrite handle_lua_upload_eq. cbn zeta.
    set (c := stored_chunk filename data).
    set (st1 := match data with [] => st | _ :: _ => _ end).
    assert (H1 : ∃ cs1, holds st1 cs1).
    { subst st1. destruct data as [|d data]; [by exists cs|].
      exists (cs ++ [c]). unfold holds. simpl upload_chunks.
      unfold xbuf_length, SIZEOF_UPLOAD_CHUNK in *.
      pose proof (length_stored_image filename (d :: data)) as Hl.
      fold c in Hl. split; [|split].
      - rewrite Hbuf, pending_app. unfold pending at 3. simpl.
        by rewrite app_nil_r.
      - rewrite forallb_app, Hwf. simpl. rewrite andb_true_r.
        apply stored_chunk_wf. lia.
      - rewrite length_app, Hl. lia. }
    destruct (Z.land (wrap16 flags) OFP_BSN_LUA_UPLOAD_MORE =? 0).
    + destruct (commit_lua_upload _ _ st1) as [s| |] eqn:Hc; simpl;
        try discriminate.
      intros [= <- <-]. exists []. unfold holds.
      rewrite (commit_lua_upload_buffer _ _ _ _ Hc). done.
    + simpl. by intros [= <- <-].
  - intros [= <- <-]. by exists cs.
Qed.

Lemma commit_loop_sandbox (cxn_id : Z) (msg : of_object) (sb : tref)
    (fuel : nat) :
  ∀ (offset : Z) (st st' : state),
    sandbox_of (lua st) = Some sb →
    sb ≠ l_gt (lua st) →
    commit_loop fuel cxn_id msg offset st = Ret st' →
    sandbox_of (lua st') = Some sb ∧ l_gt (lua st') = l_gt (lua st).
Proof.
  induction fuel as [|fuel IH]; intros offset st st' Hsb Hne; simpl.
  - destruct (offset <? _); [discriminate|]. by intros [= <-].
  - destruct (offset <? _); [|by intros [= <-]].
    destruct (chunk_at _ _) as [c| |]; simpl; try discriminate.
    destruct (commit_chunk cxn_id msg c st) as [[s stop]| |] eqn:Hstep;
      simpl; try discriminate.
    destruct (commit_chunk_sandbox _ _ _ _ _ _ _ Hsb Hne Hstep) as [Hsb' Hgt].
    destruct stop; [by intros [= <-]|].
    intros Hrest. apply IH in Hrest; [|done|by rewrite Hgt].
    destruct Hrest as [? Hgt']. by rewrite Hgt', Hgt.
Qed.

(** The listener leaves the sandbox where it is. *)
Lemma message_listener_sandbox (cxn_id : Z) (msg : of_object) (st st' : state)
    (r : indigo_core_listener_result) :
  sandbox_ready (lua st) = true →
  message_listener cxn_id msg st = Ret (st', r) →
  sandbox_ready (lua st') = true.
Proof.
  intros Hrdy.
  destruct msg as [data flags filename|id body]; unfold message_listener; simpl;
    [|by intros [= <- <-]].
  rewrite handle_lua_upload_eq. cbn zeta.
  set (st1 := match data with [] => st | _ :: _ => _ end).
  assert (H1 : lua st1 = lua st) by (subst st1; by destruct data).
  destruct (Z.land (wrap16 flags) OFP_BSN_LUA_UPLOAD_MORE =? 0).
  - unfold commit_lua_upload.
    destruct (commit_loop _ _ _ _ st1) as [s| |] eqn:Hloop; simpl;
      try discriminate.
    intros [= <- <-]. simpl.
    apply sandbox_ready_spec in Hrdy as (sb & Hsb & Hne).
    rewrite <- H1 in Hsb, Hne.
    destruct (commit_loop_sandbox _ _ _ _ _ _ _ Hsb Hne Hloop) as [Hsb' Hgt].
    apply sandbox_ready_spec. exists sb. by rewrite Hgt.
  - simpl. intros [= <- <-]. by rewrite H1.
Qed.

(** ** The claims *)

(** C1. Whatever the entry point does when it is called, returning or
    raising an error, [pipeline_lua_process] returns [INDIGO_ERROR_NONE]:
    an error is caught by the protected call and logged, with its message,
    and goes no further. *)
Theorem pipeline_lua_process_never_fails (key : ind_ovs_parsed_key)
    (stats_ : stats_xbuf) (actx_ : action_context) (st : state) :
  entry_point_live st = true →
  ∃ st',
    pipeline_lua_process key stats_ actx_ st = Ret (st', INDIGO_ERROR_NONE)
    ∧ upload_chunks st' = upload_chunks st
    ∧ ∀ f cl,
        registry (lua st) !! process_ref st = Some (LFunction f) →
        closures (lua st) !! f = Some cl →
        trace st' = trace st ++
          match (lua_execute (body cl) (fenv cl) (lua st)).2 with
          | Some m => [Log LOG_ERROR "Failed to execute script: %s" [ArgS (Some m)]]
          | None => []
          end.
Proof.
  intros Hlive. destruct st as [L ctx pref buf tr].
  destruct L as [stk tbl gt reg cls].
  unfold entry_point_live in Hlive. simpl in Hlive.
  unfold pipeline_lua_process, lua_rawgeti, lua_pcall. simpl.
  destruct (reg !! pref) as [[| s | t | f]|] eqn:Hreg; simpl;
    try (eexists; split; [reflexivity|]; split; [reflexivity|];
         intros f' cl' [=]).
  apply bool_decide_eq_true, lookup_lt_is_Some in Hlive as [cl Hcl].
  rewrite Hcl. unfold set_stack. simpl.
  destruct (lua_execute (body cl) (fenv cl) _) as [L1 [m|]] eqn:Hrun; simpl.
  - eexists. split; [reflexivity|]. split; [reflexivity|].
    intros f' cl' [= <-] Hcl'. rewrite Hcl in Hcl'. injection Hcl' as <-.
    by rewrite Hrun.
  - eexists. split; [reflexivity|]. split; [reflexivity|].
    intros f' cl' [= <-] Hcl'. rewrite Hcl in Hcl'. injection Hcl' as <-.
    rewrite Hrun. simpl. by rewrite app_nil_r.
Qed.

(** C3. After a commit the pending buffer is empty, whether every chunk
    went through or one of them failed.  The commit of a buffer that
    [handle_lua_upload] has written returns, in the state the walk over the
    chunks ended in with [upload_chunks] reset; and no state at all comes
    back from a commit with a byte left in the buffer. *)
Theorem commit_lua_upload_empties_buffer (cxn_id : Z) (msg : of_object)
    (st : state) (cs : list upload_chunk) :
  holds st cs →
  sandbox_ready (lua st) = true →
  (∃ s failed,
     commit_chunks cxn_id msg cs st = Ret (s, failed)
     ∧ commit_lua_upload cxn_id msg st = Ret (cleanup_lua_upload s)
     ∧ upload_chunks (cleanup_lua_upload s) = [])
  ∧ (∀ cxn0 msg0 s0 s0',
       commit_lua_upload cxn0 msg0 s0 = Ret s0' → upload_chunks s0' = []).
Proof.
  intros Hh Hrdy. split.
  - destruct (commit_chunks_returns cxn_id msg cs st Hrdy) as (s & b & Hcs).
    exists s, b. split; [done|]. split; [|reflexivity].
    by rewrite (commit_lua_upload_holds _ _ _ cs), Hcs.
  - intros cxn0 msg0 s0 s0'. apply commit_lua_upload_buffer.
Qed.


(** C7. The listener takes the upload message and no other: an upload
    message goes to [handle_lua_upload], and what comes back is that
    function's state with the result DROP; a message of any other type
    comes back with the result PASS and the state as it was. *)
Theorem message_listener_dispatch (cxn_id : Z) (st : state) :
  (∀ data flags filename,
     message_listener cxn_id (Of_bsn_lua_upload data flags filename) st
     = (λ s, (s, INDIGO_CORE_LISTENER_RESULT_DROP))
         <$> handle_lua_upload cxn_id (Of_bsn_lua_upload data flags filename) st)
  ∧ (∀ id body,
       message_listener cxn_id (Of_other id body) st
       = Ret (st, INDIGO_CORE_LISTENER_RESULT_PASS))
  ∧ (∀ msg, object_id msg = OF_BSN_LUA_UPLOAD
            ↔ ∃ data flags filename, msg = Of_bsn_lua_upload data flags filename).
Proof.
  split; [|split].
  - intros data flags filename. unfold message_listener. simpl.
    by destruct (handle_lua_upload _ _ _).
  - reflexivity.
  - intros [data flags filename|id body]; simpl; split; try done.
    + intros _. by eexists _, _, _.
    + intros (? & ? & ? & [=]).
Qed.

Lemma c_string_bound (l : list byte) :
  ∀ i : nat, l !! i = Some x00 → (length (c_string l) ≤ i)%nat.
Proof.
  induction l as [|b l IH]; intros i Hi; [done|].
  simpl. destruct i as [|i]; simpl in Hi.
  - injection Hi as ->. simpl. lia.
  - destruct (is_nul b); simpl; [lia|]. specialize (IH i Hi). lia.
Qed.

(** C8. An upload message adds a chunk to the pending buffer when its
    payload has at least one byte, and adds nothing when it has none; the
    name stored with the chunk is 64 bytes long, the first 63 as in the
    message and the last one NUL, so the name read from it as a C string
    ends within those 64 bytes. *)
Theorem handle_lua_upload_stores_chunk (cxn_id : Z) (data : list byte)
    (flags : Z) (filename : list byte) (st : state) :
  let msg := Of_bsn_lua_upload data flags filename in
  let c := stored_chunk filename data in
  ∃ st1,
    handle_lua_upload cxn_id msg st
    = (if Z.land (of_bsn_lua_upload_flags_get msg) OFP_BSN_LUA_UPLOAD_MORE =? 0
       then commit_lua_upload cxn_id msg st1 else Ret st1)
    ∧ lua st1 = lua st
    ∧ upload_chunks st1
      = upload_chunks st ++ match data with [] => [] | _ :: _ => chunk_image c end
    ∧ (upload_chunks st1 = upload_chunks st ↔ data = [])
    ∧ length (chunk_filename c) = OF_STR64_LEN
    ∧ chunk_filename c = take 63 (of_str64 filename) ++ [x00]
    ∧ (length (c_string (chunk_filename c)) < OF_STR64_LEN)%nat
    ∧ chunk_data c = data.
Proof.
  intros msg c. subst msg. rewrite handle_lua_upload_eq. cbn zeta.
  assert (Hlen : length (chunk_filename c) = OF_STR64_LEN)
    by apply length_stored_filename.
  assert (Hname : chunk_filename c = take 63 (of_str64 filename) ++ [x00]).
  { subst c. simpl.
    pose proof (length_of_str64 filename) as Hl. unfold OF_STR64_LEN in Hl.
    rewrite <- (take_drop 63 (of_str64 filename)) at 1.
    rewrite insert_app_r_alt by (rewrite length_take; lia).
    rewrite length_take, Hl. simpl.
    destruct (drop 63 (of_str64 filename)) as [|x [|y l]] eqn:Hd.
    - apply (f_equal length) in Hd. rewrite length_drop, Hl in Hd. done.
    - done.
    - apply (f_equal length) in Hd. rewrite length_drop, Hl in Hd. done. }
  eexists. split; [reflexivity|].
  split; [by destruct data|].
  split; [destruct data; simpl; [by rewrite app_nil_r|done]|].
  split.
  { destruct data as [|d data]; [done|]. simpl. split; [|done].
    intros Heq. apply (f_equal length) in Heq.
    rewrite length_app in Heq. unfold chunk_image in Heq.
    rewrite !length_app, length_store32 in Heq. lia. }
  split; [done|]. split; [done|]. split; [|done].
  assert (Hnul : chunk_filename c !! 63%nat = Some x00).
  { rewrite Hname. apply list_lookup_middle.
    rewrite length_take, length_of_str64. reflexivity. }
  pose proof (c_string_bound _ _ Hnul). unfold OF_STR64_LEN. lia.
Qed.

(** C9. A message without the MORE flag commits even when it carries no
    payload: handling it is committing the buffer as it stands, so the
    chunks buffered before are taken one by one; and committing an empty
    buffer changes nothing: nothing is compiled or run, nothing logged, no
    reply sent. *)
Theorem empty_terminal_upload_commits (cxn_id : Z) (flags : Z)
    (filename : list byte) (st : state) :
  Z.land (wrap16 flags) OFP_BSN_LUA_UPLOAD_MORE = 0 →
  let msg := Of_bsn_lua_upload [] flags filename in
  handle_lua_upload cxn_id msg st = commit_lua_upload cxn_id msg st
  ∧ (∀ cs, holds st cs →
           handle_lua_upload cxn_id msg st
           = (λ r, cleanup_lua_upload r.1) <$> commit_chunks cxn_id msg cs st)
  ∧ (∀ st0, upload_chunks st0 = [] → commit_lua_upload cxn_id msg st0 = Ret st0).
Proof.
  intros Hflags msg. subst msg.
  assert (Hh : handle_lua_upload cxn_id (Of_bsn_lua_upload [] flags filename) st
               = commit_lua_upload cxn_id (Of_bsn_lua_upload [] flags filename) st).
  { rewrite handle_lua_upload_eq. cbn zeta. by rewrite Hflags. }
  split; [done|]. split.
  - intros cs Hcs. rewrite Hh. by apply commit_lua_upload_holds.
  - intros st0 Hempty. unfold commit_lua_upload. rewrite Hempty. simpl.
    unfold xbuf_length. rewrite Hempty. simpl.
    destruct st0 as [L ctx pref buf tr]. simpl in Hempty. by subst buf.
Qed.

Lemma stored_all_wf (ups : list (list byte * list byte)) :
  xbuf_length (pending (stored <$> ups)) < 2 ^ 32 →
  forallb chunk_wf (stored <$> ups) = true.
Proof.
  unfold xbuf_length. induction ups as [|[f d] ups IH]; [done|].
  rewrite fmap_cons, pending_cons, length_app. unfold stored at 1. simpl fst.
  simpl snd. rewrite length_stored_image. intros Hlt. cbn [forallb].
  apply andb_true_intro. split.
  - apply stored_chunk_wf. simpl. lia.
  - apply IH. lia.
Qed.

Lemma upload_all_more (cxn_id : Z) (ups : list (list byte * list byte)) :
  ∀ st,
    forallb (λ u, 0 <? Z.of_nat (length u.2)) ups = true →
    ∃ st1, upload_all cxn_id (more_message <$> ups) st = Ret st1
           ∧ upload_chunks st1 = upload_chunks st ++ pending (stored <$> ups)
           ∧ lua st1 = lua st.
Proof.
  induction ups as [|[f d] ups IH]; intros st Hne.
  - exists st. by rewrite app_nil_r.
  - cbn [forallb] in Hne. apply andb_prop in Hne as [Hd Hups].
    rewrite fmap_cons. cbn [upload_all].
    change (more_message (f, d))
      with (Of_bsn_lua_upload d OFP_BSN_LUA_UPLOAD_MORE f).
    rewrite handle_lua_upload_eq. cbn zeta. simpl in Hd.
    change (Z.land (wrap16 OFP_BSN_LUA_UPLOAD_MORE) OFP_BSN_LUA_UPLOAD_MORE =? 0)
      with false. cbv iota.
    destruct d as [|b d]; [discriminate|].
    set (st1 := aim_log _ _ _ _).
    destruct (IH st1 Hups) as (st2 & Hrun & Hbuf & Hlua).
    exists st2. cbn [mbind outcome_bind]. split; [exact Hrun|].
    split; [|by rewrite Hlua].
    rewrite Hbuf. subst st1. simpl upload_chunks.
    by rewrite fmap_cons, pending_cons, <- app_assoc.
Qed.

(** C10. Every chunk put into the buffer has its payload's length in its
    size field and a full 64-byte name in front of it, and the walk the
    commit loop makes with its 32-bit offset, a header and a payload at a
    time, finds the chunks where they were put: the loop is the walk over
    the chunks in arrival order, each taken once, up to the first that
    fails. *)
Theorem upload_chunks_layout_and_walk (cxn_id : Z)
    (ups : list (list byte * list byte)) (st : state) :
  upload_chunks st = [] →
  forallb (λ u, 0 <? Z.of_nat (length u.2)) ups = true →
  xbuf_length (pending (stored <$> ups)) < 2 ^ 32 →
  ∃ st1,
    upload_all cxn_id (more_message <$> ups) st = Ret st1
    ∧ upload_chunks st1 = pending (stored <$> ups)
    ∧ Forall (λ u, chunk_size (stored u) = Z.of_nat (length u.2)
                   ∧ length (chunk_filename (stored u)) = OF_STR64_LEN
                   ∧ chunk_data (stored u) = u.2) ups
    ∧ (∀ (k : nat) (c : upload_chunk),
         (stored <$> ups) !! k = Some c →
         chunk_at (upload_chunks st1)
           (xbuf_length (pending (take k (stored <$> ups)))) = Ret c)
    ∧ (∀ cxn' msg,
         commit_loop (S (length (upload_chunks st1))) cxn' msg 0 st1
         = fst <$> commit_chunks cxn' msg (stored <$> ups) st1).
Proof.
  intros Hempty Hne Hlt.
  destruct (upload_all_more cxn_id ups st Hne) as (st1 & Hrun & Hbuf & Hlua).
  rewrite Hempty in Hbuf. simpl in Hbuf.
  pose proof (stored_all_wf ups Hlt) as Hwf.
  exists st1. split; [done|]. split; [done|]. split; [|split].
  - apply Forall_forall. intros [f d] Hin. unfold stored. simpl.
    split; [|split; [|done]].
    + apply (list_elem_of_fmap_2 stored) in Hin.
      rewrite forallb_forall in Hwf.
      apply list_elem_of_In, Hwf in Hin.
      by apply chunk_wf_spec in Hin as [_ Hs].
    + by rewrite length_insert, length_of_str64.
  - intros k c Hk.
    pose proof (take_drop_middle _ _ _ Hk) as Hsplit.
    assert (Hc : chunk_wf c = true).
    { rewrite forallb_forall in Hwf. apply Hwf, list_elem_of_In.
      by eapply list_elem_of_lookup_2. }
    rewrite Hbuf. rewrite <- Hsplit at 1.
    rewrite pending_app, pending_cons. unfold xbuf_length at 1.
    apply chunk_at_image; [done|].
    assert (Hle : (length (chunk_image c) ≤ length (pending (stored <$> ups)))%nat).
    { rewrite <- Hsplit, pending_app, pending_cons, !length_app. lia. }
    pose proof (length_chunk_image c Hc). unfold xbuf_length in Hlt.
    unfold SIZEOF_UPLOAD_CHUNK in *. lia.
  - intros cxn' msg.
    apply (commit_loop_pending cxn' msg (stored <$> ups) _ [] st1); try done.
    + by rewrite Hbuf.
    + rewrite Hbuf. pose proof (length_pending_ge _ Hwf). lia.
Qed.

Lemma commit_chunk_load_fails (cxn_id : Z) (msg : of_object) (c : upload_chunk)
    (st : state) (m : string) :
  lua_load (take (Z.to_nat (chunk_size c)) (chunk_data c))
    (c_str (chunk_filename c)) = inr m →
  commit_chunk cxn_id msg c st
  = Ret (indigo_cxn_send_error_reply cxn_id msg
           OF_ERROR_TYPE_BAD_REQUEST OF_REQUEST_FAILED_EPERM
           (aim_log LOG_ERROR "Failed to load code: %s" [ArgS (Some m)]
              (set_lua (lua_push (LString m) (lua st))
                 (aim_log LOG_VERBOSE "Loading Lua chunk %s, %u bytes"
                    [ArgS (Some (c_str (chunk_filename c)));
                     ArgU (chunk_size c)] st))),
         true).
Proof.
  intros Hload. unfold commit_chunk, luaL_loadbuffer.
  cbn [lua aim_log emit]. rewrite Hload. reflexivity.
Qed.

(** C2, on the code: a source text split over two messages is not put
    together again.  The two payloads "function proc" and "ess() end",
    uploaded under one filename, are handed to the compiler one by one;
    the compiler refuses the first, the commit fails with an error reply,
    and no function is compiled at all. *)
Theorem split_upload_is_compiled_chunk_by_chunk (cxn_id : Z) (st : state)
    (err : string) :
  upload_chunks st = [] →
  lua_load (bytes "function proc") "a.lua" = inr err →
  let m1 := Of_bsn_lua_upload (bytes "function proc") OFP_BSN_LUA_UPLOAD_MORE
              (bytes "a.lua") in
  let m2 := Of_bsn_lua_upload (bytes "ess() end") 0 (bytes "a.lua") in
  ∃ st',
    upload_all cxn_id [m1; m2] st = Ret st'
    ∧ trace st' = trace st ++
        [Log LOG_VERBOSE "Uploaded Lua chunk %s, %u bytes"
           [ArgS (Some "a.lua"); ArgU 13];
         Log LOG_VERBOSE "Uploaded Lua chunk %s, %u bytes"
           [ArgS (Some "a.lua"); ArgU 9];
         Log LOG_VERBOSE "Loading Lua chunk %s, %u bytes"
           [ArgS (Some "a.lua"); ArgU 13];
         Log LOG_ERROR "Failed to load code: %s" [ArgS (Some err)];
         ErrorReply cxn_id m2 OF_ERROR_TYPE_BAD_REQUEST OF_REQUEST_FAILED_EPERM]
    ∧ closures (lua st') = closures (lua st)
    ∧ upload_chunks st' = [].
Proof.
  intros Hempty Hload m1 m2. subst m1 m2.
  set (c1 := stored_chunk (bytes "a.lua") (bytes "function proc")).
  set (c2 := stored_chunk (bytes "a.lua") (bytes "ess() end")).
  cbn [upload_all].
  rewrite handle_lua_upload_nonempty by (by vm_compute).
  cbn zeta.
  change (Z.land (wrap16 OFP_BSN_LUA_UPLOAD_MORE) OFP_BSN_LUA_UPLOAD_MORE =? 0)
    with false. cbv iota. cbn [mbind outcome_bind].
  rewrite handle_lua_upload_nonempty by (by vm_compute).
  cbn zeta.
  change (Z.land (wrap16 0) OFP_BSN_LUA_UPLOAD_MORE =? 0) with true. cbv iota.
  fold c1 c2.
  set (st2 := aim_log _ _ _ (set_upload_chunks _ (aim_log _ _ _ _))).
  assert (Hh : holds st2 [c1; c2]).
  { split; [|split].
    - subst st2. simpl upload_chunks. rewrite Hempty. reflexivity.
    - reflexivity.
    - subst st2. simpl upload_chunks. rewrite Hempty. reflexivity. }
  rewrite (commit_lua_upload_holds _ _ _ _ Hh). cbn [commit_chunks].
  rewrite (commit_chunk_load_fails _ _ c1 st2 err) by exact Hload.
  eexists. split; [reflexivity|].
  subst st2. simpl. split; [|done].
  by rewrite <- !app_assoc.
Qed.


(** ** More on the upload path *)

Lemma c_string_app_nul (l r : list byte) :
  c_string (l ++ x00 :: r) = c_string l.
Proof.
  induction l as [|b l IH]; [reflexivity|].
  simpl. destruct (is_nul b); [reflexivity|]. by rewrite IH.
Qed.

Lemma stored_name_c_string (filename data : list byte) :
  c_string (chunk_filename (stored_chunk filename data))
  = c_string (take 63 filename).
Proof.
  assert (Hname : chunk_filename (stored_chunk filename data)
                  = take 63 (of_str64 filename) ++ [x00]).
  { simpl. pose proof (length_of_str64 filename) as Hl.
    unfold OF_STR64_LEN in Hl.
    rewrite <- (take_drop 63 (of_str64 filename)) at 1.
    rewrite insert_app_r_alt by (rewrite length_take; lia).
    rewrite length_take, Hl. simpl.
    destruct (drop 63 (of_str64 filename)) as [|x [|y l]] eqn:Hd.
    - apply (f_equal length) in Hd. rewrite length_drop, Hl in Hd. done.
    - done.
    - apply (f_equal length) in Hd. rewrite length_drop, Hl in Hd. done. }
  rewrite Hname. unfold of_str64, OF_STR64_LEN.
  rewrite take_take. replace (63 `min` 64)%nat with 63%nat by lia.
  rewrite take_app.
  destruct (decide (length filename ≤ 63)%nat) as [Hle|Hgt].
  - rewrite take_replicate.
    destruct (63 - length filename)%nat as [|k] eqn:Hk.
    + simpl. rewrite app_nil_r. apply c_string_app_nul.
    + replace (63 `min` 64)%nat with 63%nat by lia.
      simpl. rewrite <- app_assoc. simpl. apply c_string_app_nul.
  - replace (63 - length filename)%nat with 0%nat by lia.
    simpl. rewrite app_nil_r. apply c_string_app_nul.
Qed.

Lemma c_string_no_nul (l : list byte) :
  forallb (λ b, negb (is_nul b)) l = true → c_string l = l.
Proof.
  induction l as [|b l IH]; [reflexivity|].
  cbn [forallb c_string]. intros [Hb Hl]%andb_prop.
  apply negb_true_iff in Hb. rewrite Hb. by rewrite IH.
Qed.

Lemma has_more_upload (data : list byte) (flags : Z) (filename : list byte) :
  has_more (Of_bsn_lua_upload data flags filename) = true →
  (Z.land (wrap16 flags) OFP_BSN_LUA_UPLOAD_MORE =? 0) = false.
Proof. unfold has_more. simpl. by intros ?%negb_true_iff. Qed.


(** X2. A chunk written behind whatever the buffer holds is read back whole
    from the place it was written to: the bytes in front of it stay as they
    were, the buffer grows by the 68 bytes of the header and the payload,
    and the payload read back through the size field is the message's,
    byte for byte. *)
Theorem uploaded_chunk_reads_back (cxn_id : Z) (data : list byte) (flags : Z)
    (filename : list byte) (st : state) :
  data ≠ [] →
  has_more (Of_bsn_lua_upload data flags filename) = true →
  xbuf_length (upload_chunks st) + SIZEOF_UPLOAD_CHUNK
    + Z.of_nat (length data) < 2 ^ 32 →
  ∃ st' c,
    handle_lua_upload cxn_id (Of_bsn_lua_upload data flags filename) st = Ret st'
    ∧ take (length (upload_chunks st)) (upload_chunks st') = upload_chunks st
    ∧ xbuf_length (upload_chunks st')
      = xbuf_length (upload_chunks st) + SIZEOF_UPLOAD_CHUNK
        + Z.of_nat (length data)
    ∧ chunk_at (upload_chunks st') (xbuf_length (upload_chunks st)) = Ret c
    ∧ chunk_size c = Z.of_nat (length data)
    ∧ take (Z.to_nat (chunk_size c)) (chunk_data c) = data.
Proof.
  intros Hne Hmore Hroom.
  rewrite handle_lua_upload_nonempty by done. cbn zeta.
  rewrite (has_more_upload _ _ _ Hmore).
  set (c := stored_chunk filename data).
  assert (Hwf : chunk_wf c = true).
  { apply stored_chunk_wf. unfold xbuf_length, SIZEOF_UPLOAD_CHUNK in Hroom. lia. }
  destruct (chunk_wf_spec c Hwf) as [_ Hs].
  eexists _, c. split; [reflexivity|]. simpl upload_chunks.
  split; [by rewrite take_app_length|].
  split.
  { unfold xbuf_length. rewrite length_app. subst c.
    rewrite length_stored_image. unfold SIZEOF_UPLOAD_CHUNK. lia. }
  split.
  { unfold xbuf_length at 1.
    rewrite <- (app_nil_r (chunk_image c)).
    apply chunk_at_image; [done|].
    rewrite Hs. simpl. unfold xbuf_length, SIZEOF_UPLOAD_CHUNK in Hroom. lia. }
  split; [by rewrite Hs|].
  rewrite Hs. simpl. rewrite Nat2Z.id. apply take_ge. lia.
Qed.

(** X3. A message with the MORE bit set only buffers: it comes back without
    a commit, the same whatever connection it came on, with the script
    runtime, the packet context and the entry-point handle untouched and no
    reply sent; with an empty payload it changes nothing at all. *)
Theorem more_upload_only_buffers (cxn_id cxn_id' : Z) (data : list byte)
    (flags : Z) (filename : list byte) (st : state) :
  has_more (Of_bsn_lua_upload data flags filename) = true →
  ∃ st',
    handle_lua_upload cxn_id (Of_bsn_lua_upload data flags filename) st = Ret st'
    ∧ handle_lua_upload cxn_id' (Of_bsn_lua_upload data flags filename) st
      = Ret st'
    ∧ lua st' = lua st
    ∧ context st' = context st
    ∧ process_ref st' = process_ref st
    ∧ error_replies (trace st') = error_replies (trace st)
    ∧ match data with [] => st' = st | _ :: _ => True end.
Proof.
  intros Hmore. rewrite !handle_lua_upload_eq. cbn zeta.
  rewrite (has_more_upload _ _ _ Hmore).
  eexists. split; [reflexivity|]. split; [reflexivity|].
  destruct data as [|d data]; [done|]. simpl.
  repeat split; try done.
  by rewrite error_replies_app, app_nil_r.
Qed.

Lemma has_more_is_upload (m : of_object) :
  has_more m = true → ∃ data flags filename, m = Of_bsn_lua_upload data flags filename.
Proof. destruct m as [data flags filename|id body]; [by eexists _, _, _|done]. Qed.

(** X4. Messages with the MORE bit set pile up without limit: a run of
    them comes back with the buffer longer by 68 bytes and the payload for
    every message that has a payload, and by nothing for one that has
    none, with what the buffer held before still in front and the script
    runtime untouched. *)
Theorem buffered_uploads_grow_buffer (cxn_id : Z) (msgs : list of_object) :
  ∀ st : state,
    forallb has_more msgs = true →
    ∃ st',
      upload_all cxn_id msgs st = Ret st'
      ∧ xbuf_length (upload_chunks st')
        = xbuf_length (upload_chunks st) + run_bytes msgs
      ∧ take (length (upload_chunks st)) (upload_chunks st') = upload_chunks st
      ∧ lua st' = lua st.
Proof.
  induction msgs as [|m msgs IH]; intros st Hall.
  - exists st. simpl. split; [done|]. split; [lia|]. split; [|done].
    apply take_ge. lia.
  - cbn [forallb] in Hall. apply andb_prop in Hall as [Hm Hall].
    destruct (has_more_is_upload m Hm) as (data & flags & filename & ->).
    cbn [upload_all]. rewrite handle_lua_upload_eq. cbn zeta.
    rewrite (has_more_upload _ _ _ Hm).
    set (st1 := match data with [] => st | _ :: _ => _ end).
    destruct (IH st1 Hall) as (st' & Hrun & Hlen & Hpre & Hlua).
    exists st'. split; [exact Hrun|].
    assert (H1 : ∃ x, upload_chunks st1 = upload_chunks st ++ x
                      ∧ Z.of_nat (length x)
                        = buffered_bytes (Of_bsn_lua_upload data flags filename)
                      ∧ lua st1 = lua st).
    { subst st1. unfold buffered_bytes. simpl of_bsn_lua_upload_data_get.
      destruct data as [|d data].
      - exists []. by rewrite app_nil_r.
      - eexists. split; [reflexivity|]. split; [|done].
        rewrite length_stored_image. unfold SIZEOF_UPLOAD_CHUNK.
        replace (0 <? Z.of_nat (length (d :: data))) with true
          by (symmetry; apply Z.ltb_lt; simpl; lia).
        lia. }
    destruct H1 as (x & Hx & Hxl & Hl1).
    split; [|split].
    + rewrite Hlen. unfold xbuf_length. rewrite Hx, length_app.
      change (run_bytes (Of_bsn_lua_upload data flags filename :: msgs))
        with (buffered_bytes (Of_bsn_lua_upload data flags filename)
              + run_bytes msgs).
      lia.
    + replace (length (upload_chunks st))
        with (length (upload_chunks st) `min` length (upload_chunks st1))%nat
        by (rewrite Hx, length_app; lia).
      rewrite <- take_take, Hpre, Hx.
      replace (length (upload_chunks st) `min` length (upload_chunks st ++ x))%nat
        with (length (upload_chunks st)) by (rewrite length_app; lia).
      by rewrite take_app_length.
    + by rewrite Hlua.
Qed.

(** X5. An upload that comes whole in one message without the MORE bit is
    committed at once: the compiler is given the message's payload, byte
    for byte, under the message's filename cut to a C string of at most 63
    bytes.  When the compiler refuses it the commit logs the failure, sends
    the one error reply and compiles nothing; when it compiles and the code
    runs to its end in the sandbox, no reply is sent.  Either way the
    buffer is empty again. *)
Theorem single_upload_commits_its_payload (cxn_id : Z) (data : list byte)
    (flags : Z) (filename : list byte) (st : state) :
  upload_chunks st = [] →
  data ≠ [] →
  has_more (Of_bsn_lua_upload data flags filename) = false →
  SIZEOF_UPLOAD_CHUNK + Z.of_nat (length data) < 2 ^ 32 →
  let msg := Of_bsn_lua_upload data flags filename in
  let c := stored_chunk filename data in
  let name := String.string_of_list_byte (c_string (take 63 filename)) in
  let uploaded := Log LOG_VERBOSE "Uploaded Lua chunk %s, %u bytes"
                    [ArgS (Some name); ArgU (Z.of_nat (length data))] in
  let loading := Log LOG_VERBOSE "Loading Lua chunk %s, %u bytes"
                   [ArgS (Some name); ArgU (Z.of_nat (length data))] in
  take (Z.to_nat (chunk_size c)) (chunk_data c) = data
  ∧ c_str (chunk_filename c) = name
  ∧ (∀ m, lua_load data name = inr m →
          ∃ st',
            handle_lua_upload cxn_id msg st = Ret st'
            ∧ upload_chunks st' = []
            ∧ trace st' = trace st ++
                [uploaded; loading;
                 Log LOG_ERROR "Failed to load code: %s" [ArgS (Some m)];
                 ErrorReply cxn_id msg OF_ERROR_TYPE_BAD_REQUEST
                   OF_REQUEST_FAILED_EPERM]
            ∧ closures (lua st') = closures (lua st)
            ∧ tables (lua st') = tables (lua st))
  ∧ (∀ code sb L1,
       lua_load data name = inl code →
       sandbox_of (lua st) = Some sb →
       lua_execute code sb
         (set_closures (closures (lua st) ++ [{| body := code; fenv := sb |}])
            (lua st)) = (L1, None) →
       ∃ st',
         handle_lua_upload cxn_id msg st = Ret st'
         ∧ upload_chunks st' = []
         ∧ trace st' = trace st ++ [uploaded; loading]
         ∧ lua st' = L1).
Proof.
  intros Hempty Hne Hmore Hroom msg c name uploaded loading.
  assert (Hlt : Z.of_nat (length data) < 2 ^ 32)
    by (unfold SIZEOF_UPLOAD_CHUNK in Hroom; lia).
  assert (Hsz : chunk_size c = Z.of_nat (length data)).
  { subst c. simpl. unfold wrap32. apply Z.mod_small. lia. }
  assert (Hsrc : take (Z.to_nat (chunk_size c)) (chunk_data c) = data).
  { rewrite Hsz, Nat2Z.id. subst c. simpl. apply take_ge. lia. }
  assert (Hname : c_str (chunk_filename c) = name).
  { subst c name. unfold c_str. by rewrite stored_name_c_string. }
  assert (Hflag : (Z.land (wrap16 flags) OFP_BSN_LUA_UPLOAD_MORE =? 0) = true).
  { unfold has_more in Hmore. simpl in Hmore. by apply negb_false_iff in Hmore. }
  set (st1 := aim_log LOG_VERBOSE "Uploaded Lua chunk %s, %u bytes"
                [ArgS (Some (c_str (chunk_filename c))); ArgU (chunk_size c)]
                (set_upload_chunks (upload_chunks st ++ chunk_image c) st)).
  assert (Hh : holds st1 [c]).
  { split; [|split].
    - subst st1. simpl upload_chunks. rewrite Hempty. unfold pending. simpl.
      by rewrite app_nil_r.
    - simpl. rewrite andb_true_r. by apply stored_chunk_wf.
    - subst st1. simpl upload_chunks. rewrite Hempty. simpl.
      unfold xbuf_length. subst c. rewrite length_stored_image.
      unfold SIZEOF_UPLOAD_CHUNK in Hroom. lia. }
  assert (Hhandle : handle_lua_upload cxn_id msg st
                    = (λ r, cleanup_lua_upload r.1)
                        <$> commit_chunk cxn_id msg c st1).
  { subst msg. rewrite handle_lua_upload_nonempty by done. cbn zeta.
    rewrite Hflag. fold c. fold st1.
    rewrite (commit_lua_upload_holds _ _ _ _ Hh). cbn [commit_chunks].
    destruct (commit_chunk _ _ c st1) as [[s b]| |]; [|done|done].
    by destruct b. }
  split; [exact Hsrc|]. split; [exact Hname|]. split.
  - intros m Hload. rewrite Hhandle.
    rewrite (commit_chunk_load_fails _ _ c st1 m)
      by (by rewrite Hsrc, Hname).
    eexists. split; [reflexivity|]. subst st1.
    rewrite !Hname, !Hsz. clearbody c. simpl. repeat split; try done.
    by rewrite <- !app_assoc.
  - intros code sb L1 Hload Hsb Hrun. rewrite Hhandle.
    rewrite (commit_chunk_spec _ _ c st1 sb) by exact Hsb. cbn zeta.
    rewrite Hsrc, Hname, Hload.
    change (lua st1) with (lua st). rewrite Hrun.
    eexists. split; [reflexivity|]. subst st1.
    rewrite !Hname, !Hsz. clearbody c. simpl. repeat split; try done.
    by rewrite <- !app_assoc.
Qed.

(** ** What a commit and a packet leave in the runtime *)

(** Running code, in whatever environment, leaves the stack and the
    registry as they were and only adds function objects. *)
Lemma lua_execute_grows (c : lua_code) :
  ∀ (env : tref) (L L' : lua_State) (r : option string),
    lua_execute c env L = (L', r) →
    l_gt L' = l_gt L
    ∧ stack L' = stack L
    ∧ registry L' = registry L
    ∧ ∃ more, closures L' = closures L ++ more.
Proof.
  induction c as [|msg|name k IH|name v k IH|v key k IH|b _ k IH];
    intros env L L' r Hrun; simpl in Hrun.
  - injection Hrun as <- <-. repeat split; try done. exists []. by rewrite app_nil_r.
  - injection Hrun as <- <-. repeat split; try done. exists []. by rewrite app_nil_r.
  - by apply IH in Hrun.
  - by apply IH in Hrun.
  - destruct v as [|s|t|f]; [| |by apply IH in Hrun|];
      (injection Hrun as <- <-; repeat split; try done;
       exists []; by rewrite app_nil_r).
  - apply IH in Hrun. simpl in Hrun.
    destruct Hrun as (Hgt & Hst & Hrg & more & Hcl).
    repeat split; try done.
    eexists. rewrite Hcl, <- app_assoc. reflexivity.
Qed.

Lemma commit_chunk_runtime (cxn_id : Z) (msg : of_object) (c : upload_chunk)
    (st s : state) (b : bool) (sb : tref) :
  sandbox_of (lua st) = Some sb →
  commit_chunk cxn_id msg c st = Ret (s, b) →
  process_ref s = process_ref st
  ∧ context s = context st
  ∧ registry (lua s) = registry (lua st)
  ∧ (∃ more, closures (lua s) = closures (lua st) ++ more)
  ∧ (if b then ∃ m, stack (lua s) = LString m :: stack (lua st)
     else stack (lua s) = stack (lua st)).
Proof.
  intros Hsb. rewrite (commit_chunk_spec _ _ _ st sb) by done. cbn zeta.
  destruct (lua_load _ _) as [code|m].
  - destruct (lua_execute code sb _) as [L1 r] eqn:Hrun.
    apply lua_execute_grows in Hrun. simpl in Hrun.
    destruct Hrun as (_ & Hst & Hrg & more & Hcl).
    assert (Hmore : ∃ more', closures L1 = closures (lua st) ++ more')
      by (eexists; rewrite Hcl, <- app_assoc; reflexivity).
    destruct r as [m|]; intros [= <- <-]; simpl; repeat split; try done.
    exists m. by rewrite Hst.
  - intros [= <- <-]. simpl. repeat split; try done.
    + exists []. by rewrite app_nil_r.
    + by exists m.
Qed.

Lemma commit_chunks_runtime (cxn_id : Z) (msg : of_object) (sb : tref)
    (cs : list upload_chunk) :
  ∀ (st s : state) (b : bool),
    sandbox_of (lua st) = Some sb →
    sb ≠ l_gt (lua st) →
    commit_chunks cxn_id msg cs st = Ret (s, b) →
    process_ref s = process_ref st
    ∧ context s = context st
    ∧ registry (lua s) = registry (lua st)
    ∧ (∃ more, closures (lua s) = closures (lua st) ++ more)
    ∧ (if b then ∃ m, stack (lua s) = LString m :: stack (lua st)
       else stack (lua s) = stack (lua st)).
Proof.
  induction cs as [|c cs IH]; intros st s b Hsb Hne; simpl.
  - intros [= <- <-]. repeat split; try done. exists []. by rewrite app_nil_r.
  - destruct (commit_chunk cxn_id msg c st) as [[s1 stop]| |] eqn:Hstep;
      simpl; try discriminate.
    destruct (commit_chunk_runtime _ _ _ _ _ _ _ Hsb Hstep)
      as (Hp1 & Hc1 & Hr1 & (more1 & Hcl1) & Hs1).
    destruct (commit_chunk_sandbox _ _ _ _ _ _ _ Hsb Hne Hstep) as [Hsb1 Hgt1].
    destruct stop.
    + intros [= <- <-]. repeat split; try done. by exists more1.
    + intros Hrest. apply IH in Hrest; [|done|by rewrite Hgt1].
      destruct Hrest as (Hp2 & Hc2 & Hr2 & (more2 & Hcl2) & Hs2).
      repeat split; try congruence.
      * eexists. rewrite Hcl2, Hcl1, <- app_assoc. reflexivity.
      * destruct b; [|congruence].
        destruct Hs2 as [m Hm]. exists m. congruence.
Qed.

Lemma commit_chunk_log (cxn_id : Z) (msg : of_object) (c : upload_chunk)
    (st s : state) (b : bool) :
  commit_chunk cxn_id msg c st = Ret (s, b) →
  if b then
    ∃ e, trace s = trace st ++
           [loading_log c; e;
            ErrorReply cxn_id msg OF_ERROR_TYPE_BAD_REQUEST
              OF_REQUEST_FAILED_EPERM]
         ∧ failure_log e
  else trace s = trace st ++ [loading_log c].
Proof.
  unfold commit_chunk.
  destruct (luaL_loadbuffer _ _ _ _) as [L rc].
  destruct (negb (rc =? 0)); simpl.
  { intros [= <- <-]. simpl. eexists. split; [by rewrite <- !app_assoc|].
    left. by eexists. }
  destruct (lua_setfenv _ _) as [[L1 z]| |]; simpl; try discriminate.
  destruct (lua_pcall _) as [[L2 rc2]| |]; simpl; try discriminate.
  destruct (negb (rc2 =? 0)); intros [= <- <-]; simpl.
  - eexists. split; [by rewrite <- !app_assoc|]. right. by eexists _, _.
  - reflexivity.
Qed.

Lemma commit_chunks_log (cxn_id : Z) (msg : of_object)
    (cs : list upload_chunk) :
  ∀ (st s : state) (b : bool),
    commit_chunks cxn_id msg cs st = Ret (s, b) →
    if b then
      ∃ k e, (k < length cs)%nat
             ∧ trace s = trace st ++ (loading_log <$> take (S k) cs) ++
                 [e; ErrorReply cxn_id msg OF_ERROR_TYPE_BAD_REQUEST
                       OF_REQUEST_FAILED_EPERM]
             ∧ failure_log e
    else trace s = trace st ++ (loading_log <$> cs).
Proof.
  induction cs as [|c cs IH]; intros st s b; simpl.
  - intros [= <- <-]. by rewrite app_nil_r.
  - destruct (commit_chunk cxn_id msg c st) as [[s1 stop]| |] eqn:Hstep;
      simpl; try discriminate.
    pose proof (commit_chunk_log _ _ _ _ _ _ Hstep) as H1.
    destruct stop.
    + intros [= <- <-]. destruct H1 as (e & Ht & He).
      exists 0%nat, e. split; [lia|]. split; [|done].
      rewrite Ht. reflexivity.
    + intros Hrest. apply IH in Hrest. destruct b.
      * destruct Hrest as (k & e & Hk & Ht & He).
        exists (S k), e. split; [lia|]. split; [|done].
        rewrite Ht, H1, <- app_assoc. reflexivity.
      * rewrite Hrest, H1, <- app_assoc. reflexivity.
Qed.


(** X7. A commit never pops what a failure leaves on the runtime's value
    stack: after a commit that went through the stack is as it was, and
    after one that failed it holds one more value, the error message, on
    top. *)
Theorem commit_stack_effect (cxn_id : Z) (msg : of_object) (st : state)
    (cs : list upload_chunk) :
  holds st cs →
  sandbox_ready (lua st) = true →
  ∃ st' new,
    commit_lua_upload cxn_id msg st = Ret st'
    ∧ trace st' = trace st ++ new
    ∧ match error_replies new with
      | [] => stack (lua st') = stack (lua st)
      | _ :: _ => ∃ m, stack (lua st') = LString m :: stack (lua st)
      end.
Proof.
  intros Hh Hrdy.
  destruct (commit_chunks_returns cxn_id msg cs st Hrdy) as (s & b & Hcs).
  destruct (commit_chunks_trace _ _ _ _ _ _ Hcs) as (new & Ht & Hr & _).
  apply sandbox_ready_spec in Hrdy as (sb & Hsb & Hne).
  destruct (commit_chunks_runtime _ _ _ _ _ _ _ Hsb Hne Hcs)
    as (_ & _ & _ & _ & Hstack).
  exists (cleanup_lua_upload s), new.
  split; [by rewrite (commit_lua_upload_holds _ _ _ cs), Hcs|].
  split; [done|]. rewrite Hr. by destruct b.
Qed.

(** X10. A commit does not touch the entry point: the handle, the registry
    slot it names and every function object that was there before the
    commit are the same after it, whatever the uploaded code defined, so
    the next packet calls the function the last one called. *)
Theorem commit_keeps_entry_point (cxn_id : Z) (msg : of_object) (st : state)
    (cs : list upload_chunk) :
  holds st cs →
  sandbox_ready (lua st) = true →
  ∃ st',
    commit_lua_upload cxn_id msg st = Ret st'
    ∧ process_ref st' = process_ref st
    ∧ registry (lua st') = registry (lua st)
    ∧ (∀ f cl, closures (lua st) !! f = Some cl →
               closures (lua st') !! f = Some cl)
    ∧ (entry_point_live st = true → entry_point_live st' = true).
Proof.
  intros Hh Hrdy.
  destruct (commit_chunks_returns cxn_id msg cs st Hrdy) as (s & b & Hcs).
  apply sandbox_ready_spec in Hrdy as (sb & Hsb & Hne).
  destruct (commit_chunks_runtime _ _ _ _ _ _ _ Hsb Hne Hcs)
    as (Hp & _ & Hr & (more & Hcl) & _).
  exists (cleanup_lua_upload s).
  split; [by rewrite (commit_lua_upload_holds _ _ _ cs), Hcs|].
  split; [done|]. split; [done|]. split.
  - intros f cl Hf. simpl. rewrite Hcl. by apply lookup_app_l_Some.
  - unfold entry_point_live. simpl. rewrite Hp, Hr.
    destruct (registry (lua st) !! process_ref st) as [[| | |f]|]; try done.
    intros Hlive%bool_decide_eq_true. apply bool_decide_eq_true.
    rewrite Hcl, length_app. lia.
Qed.



(** X9. When the handle names no function, because the registry slot is
    empty or holds something else, the packet is still answered with
    [INDIGO_ERROR_NONE]: the protected call fails, the failure is logged
    and its message left on the stack, and no script code runs, so the
    tables and the function objects are as they were. *)
Theorem pipeline_lua_process_without_entry_point (key : ind_ovs_parsed_key)
    (stats_ : stats_xbuf) (actx_ : action_context) (st : state) :
  (∀ f, registry (lua st) !! process_ref st ≠ Some (LFunction f)) →
  ∃ st' m,
    pipeline_lua_process key stats_ actx_ st = Ret (st', INDIGO_ERROR_NONE)
    ∧ trace st' = trace st ++
        [Log LOG_ERROR "Failed to execute script: %s" [ArgS (Some m)]]
    ∧ stack (lua st') = LString m :: stack (lua st)
    ∧ tables (lua st') = tables (lua st)
    ∧ closures (lua st') = closures (lua st).
Proof.
  intros Hno. destruct st as [L ctx pref buf tr].
  destruct L as [stk tbl gt reg cls]. simpl in Hno.
  unfold pipeline_lua_process, lua_rawgeti, lua_pcall. simpl.
  destruct (reg !! pref) as [[| s | t | f]|] eqn:Hreg; simpl;
    try (eexists _, _; split; [reflexivity|]; done).
  by destruct (Hno f).
Qed.

(** X12. The commit takes the sandbox on trust.  While the global name
    [sandbox] is bound to no table, a chunk the compiler refuses is still
    reported with the error reply, but a chunk that compiles brings
    [lua_setfenv] a value that is no table, which the runtime's interface
    does not allow: the commit has no defined outcome. *)
Theorem commit_chunk_without_sandbox (cxn_id : Z) (msg : of_object)
    (c : upload_chunk) (st : state) :
  sandbox_of (lua st) = None →
  match lua_load (take (Z.to_nat (chunk_size c)) (chunk_data c))
          (c_str (chunk_filename c)) with
  | inl _ => commit_chunk cxn_id msg c st = Undefined
  | inr m =>
      ∃ s, commit_chunk cxn_id msg c st = Ret (s, true)
           ∧ trace s = trace st ++
               [loading_log c;
                Log LOG_ERROR "Failed to load code: %s" [ArgS (Some m)];
                ErrorReply cxn_id msg OF_ERROR_TYPE_BAD_REQUEST
                  OF_REQUEST_FAILED_EPERM]
  end.
Proof.
  intros Hsb.
  destruct (lua_load _ _) as [code|m] eqn:Hload.
  - destruct st as [L ctx pref buf tr]. destruct L as [stk tbl gt reg cls].
    unfold sandbox_of, table_get, table_of in Hsb. simpl in Hsb.
    unfold commit_chunk, luaL_loadbuffer. simpl. rewrite Hload. simpl.
    unfold lua_getglobal, table_get, table_of. simpl.
    destruct (default LNil (default ∅ (tbl !! gt) !! "sandbox")) as [| |t|];
      try discriminate; reflexivity.
  - rewrite (commit_chunk_load_fails _ _ _ _ m Hload).
    eexists. split; [reflexivity|]. simpl. by rewrite <- !app_assoc.
Qed.

(** ** Runs of the listener *)

Lemma buffered_bytes_nonneg (m : of_object) : 0 ≤ buffered_bytes m.
Proof.
  unfold buffered_bytes, SIZEOF_UPLOAD_CHUNK. cbn zeta.
  destruct (0 <? _); lia.
Qed.

Lemma run_bytes_cons (m : of_object) (l : list of_object) :
  run_bytes (m :: l) = buffered_bytes m + run_bytes l.
Proof. reflexivity. Qed.

Lemma run_bytes_nonneg (l : list of_object) : 0 ≤ run_bytes l.
Proof.
  induction l as [|m l IH]; [done|].
  rewrite run_bytes_cons. pose proof (buffered_bytes_nonneg m). lia.
Qed.



(** X13. The buffer belongs to no connection.  Messages with the MORE bit
    set that came on any connections, then an upload message on some
    connection, leave the same state as if all of them had come on that
    last connection: the chunks of several senders are committed together,
    and a failure is reported to the sender of the last message only. *)
Theorem upload_session_ignores_sender (msgs : list (Z * of_object))
    (cxn_id : Z) (data : list byte) (flags : Z) (filename : list byte) :
  ∀ st : state,
    forallb (λ p, has_more p.2) msgs = true →
    listener_run (msgs ++ [(cxn_id, Of_bsn_lua_upload data flags filename)]) st
    = upload_all cxn_id
        ((snd <$> msgs) ++ [Of_bsn_lua_upload data flags filename]) st.
Proof.
  induction msgs as [|[cxn m] msgs IH]; intros st Hall.
  - simpl. unfold message_listener. simpl.
    by destruct (handle_lua_upload _ _ _).
  - cbn [forallb] in Hall. apply andb_prop in Hall as [Hm Hall]. simpl in Hm.
    destruct (has_more_is_upload m Hm) as (d & f & n & ->).
    rewrite <- app_comm_cons, fmap_cons, <- app_comm_cons.
    cbn [listener_run upload_all snd]. unfold message_listener.
    simpl object_id. cbv iota.
    rewrite !handle_lua_upload_eq. cbn zeta.
    rewrite (has_more_upload _ _ _ Hm). simpl. by apply IH.
Qed.

(** ** The commit, told by the verdicts on its chunks *)

Lemma commit_chunk_verdict (cxn_id : Z) (msg : of_object) (c : upload_chunk)
    (st : state) (sb : tref) :
  sandbox_of (lua st) = Some sb →
  commit_chunk cxn_id msg c st =
  let st0 := emit (loading_log c) st in
  match verdict sb c (lua st) with
  | Runs L' => Ret (set_lua L' st0, false)
  | CompileFails m =>
      Ret (emit (the_error_reply cxn_id msg)
             (emit (Log LOG_ERROR "Failed to load code: %s" [ArgS (Some m)])
                (set_lua (lua_push (LString m) (lua st)) st0)),
           true)
  | RunFails L' m =>
      Ret (emit (the_error_reply cxn_id msg)
             (emit (Log LOG_ERROR "Failed to execute code %s: %s"
                      [ArgS (Some (chunk_name c)); ArgS (Some m)])
                (set_lua (lua_push (LString m) L') st0)),
           true)
  end.
Proof.
  intros Hsb. rewrite (commit_chunk_spec _ _ _ st sb) by done.
  unfold verdict, chunk_source, chunk_name. cbn zeta.
  destruct (lua_load _ _) as [code|m]; [|reflexivity].
  by destruct (lua_execute code sb _) as [L1 [m|]].
Qed.

Lemma commit_chunk_set_buffer (cxn_id : Z) (msg : of_object) (c : upload_chunk)
    (b : xbuf) (st : state) :
  commit_chunk cxn_id msg c (set_upload_chunks b st)
  = prod_map (set_upload_chunks b) id <$> commit_chunk cxn_id msg c st.
Proof.
  unfold commit_chunk. simpl.
  destruct (luaL_loadbuffer _ _ _ _) as [L rc].
  destruct (negb (rc =? 0)); simpl; [reflexivity|].
  destruct (lua_setfenv _ _) as [[L1 z]| |]; simpl; try reflexivity.
  destruct (lua_pcall _) as [[L2 rc2]| |]; simpl; try reflexivity.
  by destruct (negb (rc2 =? 0)).
Qed.

Lemma commit_chunks_set_buffer (cxn_id : Z) (msg : of_object) (b : xbuf)
    (cs : list upload_chunk) :
  ∀ st,
    commit_chunks cxn_id msg cs (set_upload_chunks b st)
    = prod_map (set_upload_chunks b) id <$> commit_chunks cxn_id msg cs st.
Proof.
  induction cs as [|c cs IH]; intros st; [reflexivity|].
  simpl. rewrite commit_chunk_set_buffer.
  destruct (commit_chunk cxn_id msg c st) as [[s stop]| |]; simpl;
    try reflexivity.
  destruct stop; [reflexivity|]. apply IH.
Qed.

Lemma filter_loading_app (t1 t2 : list event) :
  List.filter is_loading_log (t1 ++ t2)
  = List.filter is_loading_log t1 ++ List.filter is_loading_log t2.
Proof. apply List.filter_app. Qed.

(** The walk over the chunks does what the verdicts say: it goes on past a
    chunk that runs and stops, with the one reply, at the first that does
    not compile or does not run. *)
Lemma commit_chunks_verdicts (cxn_id : Z) (msg : of_object) (sb : tref)
    (cs : list upload_chunk) :
  ∀ st,
    sandbox_of (lua st) = Some sb →
    sb ≠ l_gt (lua st) →
    ∃ s new,
      commit_chunks cxn_id msg cs st
      = Ret (s, match all_run sb cs (lua st) with
                | Some _ => false
                | None => true
                end)
      ∧ trace s = trace st ++ new
      ∧ List.filter is_loading_log new
        = loading_log <$> take (walked sb cs (lua st)) cs
      ∧ error_replies new
        = match all_run sb cs (lua st) with
          | Some _ => []
          | None => [the_error_reply cxn_id msg]
          end
      ∧ match all_run sb cs (lua st) with
        | Some L' => lua s = L'
        | None => ∃ pre e, new = pre ++ [e; the_error_reply cxn_id msg]
                           ∧ failure_log e
        end
      ∧ sandbox_of (lua s) = Some sb
      ∧ l_gt (lua s) = l_gt (lua st).
Proof.
  induction cs as [|c cs IH]; intros st Hsb Hne.
  - exists st, []. simpl. by rewrite app_nil_r.
  - pose proof (commit_chunk_verdict cxn_id msg c st sb Hsb) as Hstep.
    cbn zeta in Hstep. cbn [commit_chunks all_run walked].
    destruct (verdict sb c (lua st)) as [L'|m|L' m] eqn:Hv.
    + destruct (commit_chunk_sandbox _ _ _ _ _ _ _ Hsb Hne Hstep) as [Hsb1 Hgt1].
      rewrite Hstep. cbn [mbind outcome_bind].
      destruct (IH (set_lua L' (emit (loading_log c) st)) Hsb1)
        as (s & new & Hrun & Ht & Hl & Hr & Hk & Hsb' & Hgt');
        [by rewrite Hgt1|].
      simpl lua in *. exists s, (loading_log c :: new).
      split; [exact Hrun|]. split.
      { rewrite Ht. simpl. by rewrite <- app_assoc. }
      split; [simpl; by rewrite Hl|].
      split; [exact Hr|]. split.
      { destruct (all_run sb cs L'); [done|].
        destruct Hk as (pre & e & -> & He). by exists (loading_log c :: pre), e. }
      split; [done|]. by rewrite Hgt', Hgt1.
    + destruct (commit_chunk_sandbox _ _ _ _ _ _ _ Hsb Hne Hstep) as [Hsb1 Hgt1].
      rewrite Hstep. cbn [mbind outcome_bind].
      eexists _, [loading_log c; _; _]. split; [reflexivity|].
      split; [simpl; by rewrite <- !app_assoc|].
      split; [reflexivity|]. split; [reflexivity|].
      split; [|done].
      eexists [loading_log c], _. split; [reflexivity|]. left. by eexists.
    + destruct (commit_chunk_sandbox _ _ _ _ _ _ _ Hsb Hne Hstep) as [Hsb1 Hgt1].
      rewrite Hstep. cbn [mbind outcome_bind].
      eexists _, [loading_log c; _; _]. split; [reflexivity|].
      split; [simpl; by rewrite <- !app_assoc|].
      split; [reflexivity|]. split; [reflexivity|].
      split; [|done].
      eexists [loading_log c], _. split; [reflexivity|]. right. by eexists _, _.
Qed.

Lemma all_run_stops (sb : tref) (cs1 cs2 : list upload_chunk) (c : upload_chunk) :
  ∀ L L1,
    all_run sb cs1 L = Some L1 →
    verdict_fails (verdict sb c L1) = true →
    all_run sb (cs1 ++ c :: cs2) L = None
    ∧ walked sb (cs1 ++ c :: cs2) L = S (length cs1).
Proof.
  induction cs1 as [|c1 cs1 IH]; intros L L1; simpl.
  - intros [= ->] Hf. by destruct (verdict sb c L1).
  - destruct (verdict sb c1 L) as [L'|m|L' m]; try discriminate.
    intros Hrun Hf. destruct (IH _ _ Hrun Hf) as [-> ->]. done.
Qed.

Lemma walked_all_run (sb : tref) (cs : list upload_chunk) :
  ∀ L, is_Some (all_run sb cs L) → walked sb cs L = length cs.
Proof.
  induction cs as [|c cs IH]; intros L; simpl; [done|].
  destruct (verdict sb c L) as [L'|m|L' m]; intros [x Hx]; try discriminate.
  rewrite IH; [done|by exists x].
Qed.

Lemma holds_front (st : state) (cs1 cs2 : list upload_chunk) :
  holds st (cs1 ++ cs2) →
  holds (set_upload_chunks (pending cs1) st) cs1.
Proof.
  intros (Hbuf & Hwf & Hlt). rewrite forallb_app in Hwf.
  apply andb_prop in Hwf as [Hwf1 _].
  split; [done|]. split; [done|]. simpl.
  rewrite Hbuf, pending_app in Hlt. unfold xbuf_length in *.
  rewrite length_app in Hlt. lia.
Qed.

Lemma commit_chunks_stop (cxn_id : Z) (msg : of_object) (sb : tref)
    (cs1 cs2 : list upload_chunk) (c : upload_chunk) (st : state)
    (L1 : lua_State) :
  sandbox_of (lua st) = Some sb →
  sb ≠ l_gt (lua st) →
  all_run sb cs1 (lua st) = Some L1 →
  verdict_fails (verdict sb c L1) = true →
  ∃ s2,
    commit_chunks cxn_id msg (cs1 ++ c :: cs2) st = Ret (s2, true)
    ∧ closures (lua s2) = closures (verdict_runtime L1 (verdict sb c L1))
    ∧ tables (lua s2) = tables (verdict_runtime L1 (verdict sb c L1)).
Proof.
  intros Hsb Hne Hrun Hf.
  destruct (commit_chunks_verdicts cxn_id msg sb cs1 st Hsb Hne)
    as (s1 & new1 & Hcs1 & _ & _ & _ & Hl1 & Hsb1 & _).
  rewrite Hrun in Hcs1, Hl1.
  rewrite (commit_chunks_app _ _ _ _ _ _ Hcs1). cbn [commit_chunks].
  rewrite (commit_chunk_verdict _ _ _ s1 sb Hsb1). cbn zeta. rewrite Hl1.
  destruct (verdict sb c L1) as [L'|m|L' m]; [done| |];
    cbn [mbind outcome_bind]; eexists; (split; [reflexivity|]); simpl;
    by rewrite ?Hl1.
Qed.

(** C4. A commit stops at the first chunk that does not compile or whose
    top-level code raises an error.  When the chunks [cs1] compile and run
    to their end one after another and the compiler refuses the next chunk
    [c], or [c] compiles and its run raises an error, the commit comes back
    as if [c] had been the last chunk in the buffer, whatever chunks [cs2]
    were buffered behind it: the runtime has the function objects and the
    tables it had when [c] failed, so none of [cs2] was compiled or run;
    the chunks the loop came to are those of [cs1] and [c]; the one error
    reply is sent; and the buffer, [cs2] included, is emptied. *)
Theorem commit_lua_upload_stops_at_first_failure (cxn_id : Z) (msg : of_object)
    (st : state) (sb : tref) (cs1 cs2 : list upload_chunk) (c : upload_chunk)
    (L1 : lua_State) :
  holds st (cs1 ++ c :: cs2) →
  sandbox_of (lua st) = Some sb →
  sb ≠ l_gt (lua st) →
  all_run sb cs1 (lua st) = Some L1 →
  verdict_fails (verdict sb c L1) = true →
  ∃ st' new,
    commit_lua_upload cxn_id msg st = Ret st'
    ∧ commit_lua_upload cxn_id msg
        (set_upload_chunks (pending (cs1 ++ [c])) st) = Ret st'
    ∧ upload_chunks st' = []
    ∧ closures (lua st') = closures (verdict_runtime L1 (verdict sb c L1))
    ∧ tables (lua st') = tables (verdict_runtime L1 (verdict sb c L1))
    ∧ trace st' = trace st ++ new
    ∧ List.filter is_loading_log new = loading_log <$> (cs1 ++ [c])
    ∧ error_replies new = [the_error_reply cxn_id msg].
Proof.
  intros Hh Hsb Hne Hrun Hf.
  destruct (commit_chunks_stop cxn_id msg sb cs1 cs2 c st L1 Hsb Hne Hrun Hf)
    as (s2 & Hlong & Hcl & Htb).
  destruct (commit_chunks_stop cxn_id msg sb cs1 [] c st L1 Hsb Hne Hrun Hf)
    as (s2' & Hshort & _).
  assert (s2' = s2) as ->.
  { destruct (commit_chunks_verdicts cxn_id msg sb cs1 st Hsb Hne)
      as (s1 & new1 & Hcs1 & _). rewrite Hrun in Hcs1.
    rewrite (commit_chunks_app _ _ cs1 (c :: cs2) _ _ Hcs1) in Hlong.
    rewrite (commit_chunks_app _ _ cs1 [c] _ _ Hcs1) in Hshort.
    cbn [commit_chunks] in Hlong, Hshort.
    destruct (commit_chunk cxn_id msg c s1) as [[s stop]| |];
      cbn [mbind outcome_bind] in Hlong, Hshort; try discriminate.
    destruct stop; [congruence|]. discriminate. }
  destruct (commit_chunks_verdicts cxn_id msg sb (cs1 ++ c :: cs2) st Hsb Hne)
    as (s & new & Hcs & Ht & Hl & Hr & _).
  destruct (all_run_stops sb cs1 cs2 c _ _ Hrun Hf) as [Hnone Hw].
  rewrite Hnone in Hcs, Hr. rewrite Hw in Hl.
  assert (s = s2) as -> by congruence.
  exists (cleanup_lua_upload s2), new.
  split; [by rewrite (commit_lua_upload_holds _ _ _ _ Hh), Hlong|].
  split.
  { assert (Hh' : holds (set_upload_chunks (pending (cs1 ++ [c])) st)
                    (cs1 ++ [c])).
    { apply (holds_front st (cs1 ++ [c]) cs2).
      by rewrite <- app_assoc. }
    rewrite (commit_lua_upload_holds _ _ _ _ Hh').
    by rewrite commit_chunks_set_buffer, Hshort. }
  split; [done|]. split; [done|]. split; [done|]. split; [done|].
  split; [|done].
  rewrite Hl, take_app. rewrite take_ge by lia.
  replace (S (length cs1) - length cs1)%nat with 1%nat by lia.
  reflexivity.
Qed.

(** C6. A commit fails when one of its chunks does not compile or raises an
    error when run, and then exactly one error reply is sent: of type
    bad-request with code not-permitted, carrying the message and the
    connection the commit was called with, and coming last, right behind
    the diagnostic of the failure.  The reply is the same whether it was
    the compiler or the run that failed.  When every chunk compiles and
    runs to its end no reply is sent. *)
Theorem commit_lua_upload_error_reply (cxn_id : Z) (msg : of_object)
    (st : state) (sb : tref) (cs : list upload_chunk) :
  holds st cs →
  sandbox_of (lua st) = Some sb →
  sb ≠ l_gt (lua st) →
  ∃ st' new,
    commit_lua_upload cxn_id msg st = Ret st'
    ∧ trace st' = trace st ++ new
    ∧ match all_run sb cs (lua st) with
      | Some _ => error_replies new = []
      | None =>
          error_replies new
          = [ErrorReply cxn_id msg OF_ERROR_TYPE_BAD_REQUEST
               OF_REQUEST_FAILED_EPERM]
          ∧ ∃ pre e, new = pre ++ [e; ErrorReply cxn_id msg
                                        OF_ERROR_TYPE_BAD_REQUEST
                                        OF_REQUEST_FAILED_EPERM]
                     ∧ failure_log e
      end.
Proof.
  intros Hh Hsb Hne.
  destruct (commit_chunks_verdicts cxn_id msg sb cs st Hsb Hne)
    as (s & new & Hcs & Ht & _ & Hr & Hk & _).
  exists (cleanup_lua_upload s), new.
  split; [by rewrite (commit_lua_upload_holds _ _ _ _ Hh), Hcs|].
  split; [done|].
  destruct (all_run sb cs (lua st)); [done|]. done.
Qed.

(** X6. The commit loop logs its loading line for the chunks it comes to,
    in the order they arrived, each once: for all of them when every chunk
    compiles and runs to its end, and otherwise for those up to and
    including the first chunk that does not compile or raises an error,
    and for none behind it. *)
Theorem commit_logs_chunks_in_order (cxn_id : Z) (msg : of_object)
    (st : state) (sb : tref) (cs : list upload_chunk) :
  holds st cs →
  sandbox_of (lua st) = Some sb →
  sb ≠ l_gt (lua st) →
  ∃ st' new,
    commit_lua_upload cxn_id msg st = Ret st'
    ∧ trace st' = trace st ++ new
    ∧ List.filter is_loading_log new
      = loading_log <$> take (walked sb cs (lua st)) cs
    ∧ match all_run sb cs (lua st) with
      | Some _ => walked sb cs (lua st) = length cs
      | None => (0 < walked sb cs (lua st) ≤ length cs)%nat
      end.
Proof.
  intros Hh Hsb Hne.
  destruct (commit_chunks_verdicts cxn_id msg sb cs st Hsb Hne)
    as (s & new & Hcs & Ht & Hl & _).
  exists (cleanup_lua_upload s), new.
  split; [by rewrite (commit_lua_upload_holds _ _ _ _ Hh), Hcs|].
  split; [done|]. split; [done|].
  destruct (all_run sb cs (lua st)) as [L'|] eqn:Hall.
  - apply walked_all_run. by exists L'.
  - clear -Hall. revert Hall. generalize (lua st).
    induction cs as [|c cs IH]; intros L; simpl; [done|].
    destruct (verdict sb c L) as [L'|m|L' m]; intros Hall; try lia.
    specialize (IH _ Hall). lia.
Qed.

(** X1. The name a chunk is stored, logged and later compiled under is the
    message's filename as a C string cut after 63 bytes: a name of up to 63
    bytes without a NUL comes through whole, a longer one loses what is
    behind its 63rd byte.  It is under this name, and with the message's
    payload, that the commit gives the chunk to the compiler: the
    compiler's answer for that name and payload decides how the commit
    ends. *)
Theorem uploaded_chunk_name (cxn_id : Z) (data : list byte) (flags : Z)
    (filename : list byte) (st : state) :
  data ≠ [] →
  has_more (Of_bsn_lua_upload data flags filename) = true →
  let c := stored_chunk filename data in
  let name := String.string_of_list_byte (c_string (take 63 filename)) in
  let size := Z.of_nat (length data) in
  ∃ st',
    handle_lua_upload cxn_id (Of_bsn_lua_upload data flags filename) st = Ret st'
    ∧ upload_chunks st' = upload_chunks st ++ chunk_image c
    ∧ trace st' = trace st ++
        [Log LOG_VERBOSE "Uploaded Lua chunk %s, %u bytes"
           [ArgS (Some name); ArgU (wrap32 size)]]
    ∧ ((length filename < OF_STR64_LEN)%nat →
       forallb (λ b, negb (is_nul b)) filename = true →
       c_string (chunk_filename c) = filename)
    ∧ (upload_chunks st = [] →
       SIZEOF_UPLOAD_CHUNK + size < 2 ^ 32 →
       ∀ cxn2 msg2,
         (∀ m, lua_load data name = inr m →
               ∃ st2,
                 commit_lua_upload cxn2 msg2 st' = Ret st2
                 ∧ trace st2 = trace st' ++
                     [Log LOG_VERBOSE "Loading Lua chunk %s, %u bytes"
                        [ArgS (Some name); ArgU size];
                      Log LOG_ERROR "Failed to load code: %s" [ArgS (Some m)];
                      ErrorReply cxn2 msg2 OF_ERROR_TYPE_BAD_REQUEST
                        OF_REQUEST_FAILED_EPERM]
                 ∧ closures (lua st2) = closures (lua st))
         ∧ (∀ code sb L1,
              lua_load data name = inl code →
              sandbox_of (lua st) = Some sb →
              lua_execute code sb
                (set_closures
                   (closures (lua st) ++ [{| body := code; fenv := sb |}])
                   (lua st)) = (L1, None) →
              ∃ st2,
                commit_lua_upload cxn2 msg2 st' = Ret st2
                ∧ lua st2 = L1
                ∧ error_replies (trace st2) = error_replies (trace st'))).
Proof.
  intros Hne Hmore c name size.
  rewrite handle_lua_upload_nonempty by done. cbn zeta.
  rewrite (has_more_upload _ _ _ Hmore). fold c.
  assert (Hname : c_str (chunk_filename c) = name).
  { subst c name. unfold c_str. by rewrite stored_name_c_string. }
  set (st' := aim_log _ _ _ _).
  exists st'. split; [reflexivity|]. split; [reflexivity|].
  split; [subst st'; unfold aim_log, emit; cbn [trace]; by rewrite Hname|].
  split.
  { intros Hlen Hnn. subst c. rewrite stored_name_c_string.
    rewrite take_ge by (unfold OF_STR64_LEN in Hlen; lia).
    by apply c_string_no_nul. }
  intros Hempty Hroom cxn2 msg2.
  assert (Hlt : size < 2 ^ 32)
    by (unfold SIZEOF_UPLOAD_CHUNK in Hroom; lia).
  assert (Hsz : chunk_size c = size).
  { subst c size. simpl. unfold wrap32. apply Z.mod_small. lia. }
  assert (Hsrc : take (Z.to_nat (chunk_size c)) (chunk_data c) = data).
  { rewrite Hsz. subst size. rewrite Nat2Z.id. subst c. simpl.
    apply take_ge. lia. }
  assert (Hh : holds st' [c]).
  { split; [|split].
    - subst st'. simpl upload_chunks. rewrite Hempty. unfold pending. simpl.
      by rewrite app_nil_r.
    - simpl. rewrite andb_true_r. by apply stored_chunk_wf.
    - subst st'. simpl upload_chunks. rewrite Hempty. simpl.
      unfold xbuf_length. subst c. rewrite length_stored_image.
      subst size. unfold SIZEOF_UPLOAD_CHUNK in Hroom. lia. }
  assert (Hcommit : commit_lua_upload cxn2 msg2 st'
                    = (λ r, cleanup_lua_upload r.1)
                        <$> commit_chunk cxn2 msg2 c st').
  { rewrite (commit_lua_upload_holds _ _ _ _ Hh). cbn [commit_chunks].
    destruct (commit_chunk _ _ c st') as [[s b]| |]; [|done|done].
    by destruct b. }
  split.
  - intros m Hload. rewrite Hcommit.
    rewrite (commit_chunk_load_fails _ _ c st' m)
      by (by rewrite Hsrc, Hname).
    eexists. split; [reflexivity|].
    rewrite !Hname, !Hsz. clearbody c. simpl. split; [|done].
    by rewrite <- !app_assoc.
  - intros code sb L1 Hload Hsb Hrun. rewrite Hcommit.
    rewrite (commit_chunk_spec _ _ c st' sb) by exact Hsb. cbn zeta.
    rewrite Hsrc, Hname, Hload.
    change (lua st') with (lua st). rewrite Hrun.
    eexists. split; [reflexivity|]. clearbody c. simpl. split; [done|].
    by rewrite !error_replies_app, !app_nil_r.
Qed.

(** X8. What a packet leaves behind: the packet's context installed, the
    entry-point handle, the registry and the pending upload buffer as they
    were, the entry point still there, and no reply on the control channel.
    A call that returns leaves the runtime's value stack as it was; a call
    that raises leaves one more value on it, which nothing pops. *)
Theorem pipeline_lua_process_frame (key : ind_ovs_parsed_key)
    (stats_ : stats_xbuf) (actx_ : action_context) (st : state) :
  entry_point_live st = true →
  ∃ st',
    pipeline_lua_process key stats_ actx_ st = Ret (st', INDIGO_ERROR_NONE)
    ∧ context st' = {| stats := stats_; actx := actx_;
                       ctx_fields := pipeline_lua_fields_from_key key |}
    ∧ process_ref st' = process_ref st
    ∧ registry (lua st') = registry (lua st)
    ∧ upload_chunks st' = upload_chunks st
    ∧ entry_point_live st' = true
    ∧ error_replies (trace st') = error_replies (trace st)
    ∧ ∀ f cl,
        registry (lua st) !! process_ref st = Some (LFunction f) →
        closures (lua st) !! f = Some cl →
        match (lua_execute (body cl) (fenv cl) (lua st)).2 with
        | None => stack (lua st') = stack (lua st)
        | Some _ => ∃ v, stack (lua st') = v :: stack (lua st)
        end.
Proof.
  intros Hlive. destruct st as [L ctx pref buf tr].
  destruct L as [stk tbl gt reg cls].
  unfold entry_point_live in *. simpl in Hlive.
  unfold pipeline_lua_process, lua_rawgeti, lua_pcall. simpl.
  destruct (reg !! pref) as [[| s | t | f]|] eqn:Hreg; simpl;
    try (eexists; split; [reflexivity|]; simpl; rewrite Hreg;
         repeat split; try done;
         by rewrite error_replies_app, app_nil_r).
  apply bool_decide_eq_true in Hlive.
  destruct (lookup_lt_is_Some_2 cls f Hlive) as [cl Hcl].
  rewrite Hcl. unfold set_stack. simpl.
  destruct (lua_execute (body cl) (fenv cl) _) as [L1 r] eqn:Hrun.
  pose proof Hrun as Hgrow.
  apply lua_execute_grows in Hgrow. simpl in Hgrow.
  destruct Hgrow as (Hgt & Hst & Hrg & more & Hclo).
  assert (Hlive' : bool_decide (f < length (closures L1))%nat = true)
    by (apply bool_decide_eq_true; rewrite Hclo, length_app; lia).
  destruct r as [m|]; simpl; (eexists; split; [reflexivity|]); simpl;
    rewrite Hrg, Hreg; repeat split; try done.
  - by rewrite error_replies_app, app_nil_r.
  - intros f' cl' [= <-] Hcl'. rewrite Hcl in Hcl'. injection Hcl' as <-.
    rewrite Hrun. simpl. exists (LString m). by rewrite Hst.
  - intros f' cl' [= <-] Hcl'. rewrite Hcl in Hcl'. injection Hcl' as <-.
    rewrite Hrun. simpl. by rewrite Hst.
Qed.

Lemma listener_step_holds (cxn_id : Z) (m : of_object) (st st' : state)
    (cs : list upload_chunk) (r : indigo_core_listener_result) :
  holds st cs →
  xbuf_length (upload_chunks st) + buffered_bytes m < 2 ^ 32 →
  message_listener cxn_id m st = Ret (st', r) →
  ∃ cs',
    holds st' cs'
    ∧ xbuf_length (upload_chunks st')
      ≤ xbuf_length (upload_chunks st) + buffered_bytes m.
Proof.
  intros Hh Hroom. pose proof (buffered_bytes_nonneg m) as Hnn.
  destruct m as [data flags filename|id body]; unfold message_listener;
    simpl object_id; cbv iota.
  2:{ intros [= <- <-]. exists cs. split; [done|]. lia. }
  rewrite handle_lua_upload_eq. cbn zeta.
  set (c := stored_chunk filename data).
  set (st1 := match data with [] => st | _ :: _ => _ end).
  assert (H1 : ∃ cs1, holds st1 cs1
                      ∧ xbuf_length (upload_chunks st1)
                        = xbuf_length (upload_chunks st)
                          + buffered_bytes
                              (Of_bsn_lua_upload data flags filename)).
  { destruct Hh as (Hbuf & Hwf & Hlt).
    subst st1. unfold buffered_bytes in *.
    simpl of_bsn_lua_upload_data_get in *. cbn zeta in *.
    destruct data as [|d data].
    - exists cs. simpl. split; [done|]. lia.
    - replace (0 <? Z.of_nat (length (d :: data))) with true in *
        by (symmetry; apply Z.ltb_lt; simpl; lia).
      exists (cs ++ [c]). unfold holds. simpl upload_chunks.
      unfold xbuf_length, SIZEOF_UPLOAD_CHUNK in *.
      pose proof (length_stored_image filename (d :: data)) as Hl.
      fold c in Hl. rewrite length_app, Hl.
      split; [|lia].
      split; [|split].
      + rewrite Hbuf, pending_app. unfold pending at 3. simpl.
        by rewrite app_nil_r.
      + rewrite forallb_app, Hwf. simpl. rewrite andb_true_r.
        apply stored_chunk_wf. lia.
      + lia. }
  destruct H1 as (cs1 & Hh1 & Hlen1).
  destruct (Z.land (wrap16 flags) OFP_BSN_LUA_UPLOAD_MORE =? 0).
  - destruct (commit_lua_upload _ _ st1) as [s| |] eqn:Hc; simpl;
      try discriminate.
    intros [= <- <-]. pose proof (commit_lua_upload_buffer _ _ _ _ Hc) as He.
    exists []. unfold holds, xbuf_length in *. rewrite He. simpl.
    split; [done|]. lia.
  - simpl. intros [= <- <-]. exists cs1. split; [done|]. lia.
Qed.

(** X11. The listener keeps the pending buffer readable.  From a buffer of
    well-formed chunks, whatever run of messages the listener has answered
    (of any type, with any flags, payloads and filenames, on any
    connections) the buffer it leaves is again a sequence of well-formed
    chunks, as long as the payloads of the run with their headers fit below
    2^32 bytes; so the walk a later commit makes with its offset stays
    inside the buffer and goes from chunk to chunk. *)
Theorem listener_run_keeps_chunks (msgs : list (Z * of_object)) :
  ∀ (st st' : state) (cs : list upload_chunk),
    holds st cs →
    xbuf_length (upload_chunks st) + run_bytes (snd <$> msgs) < 2 ^ 32 →
    listener_run msgs st = Ret st' →
    ∃ cs',
      holds st' cs'
      ∧ ∀ cxn_id msg,
          commit_loop (S (length (upload_chunks st'))) cxn_id msg 0 st'
          = fst <$> commit_chunks cxn_id msg cs' st'.
Proof.
  induction msgs as [|[cxn_id m] msgs IH]; intros st st' cs Hh Hroom.
  - intros [= <-]. exists cs. split; [done|]. intros cxn_id msg.
    destruct Hh as (Hbuf & Hwf & Hlt).
    apply (commit_loop_pending cxn_id msg cs _ [] st); try done.
    rewrite Hbuf. pose proof (length_pending_ge cs Hwf). lia.
  - rewrite fmap_cons, run_bytes_cons in Hroom. simpl snd in Hroom.
    pose proof (run_bytes_nonneg (snd <$> msgs)) as Hnn.
    cbn [listener_run].
    destruct (message_listener cxn_id m st) as [[st1 r]| |] eqn:Hstep;
      cbn [mbind outcome_bind]; try discriminate.
    assert (Hroom1 : xbuf_length (upload_chunks st) + buffered_bytes m < 2 ^ 32)
      by lia.
    destruct (listener_step_holds _ _ _ _ _ _ Hh Hroom1 Hstep)
      as (cs1 & Hh1 & Hlen1).
    apply (IH st1 st' cs1 Hh1). lia.
Qed.
End Facts.

(** ** The claims on the small host *)

Lemma demo_pending_holds : holds demo_pending demo_chunks.
Proof. split; [reflexivity|]. split; reflexivity. Defined.

Lemma pipeline_lua_process_never_fails_witness :
  entry_point_live demo_state = true
  ∧ ∃ st',
      pipeline_lua_process (H := demo_host) 5 () () demo_state
      = Ret (st', INDIGO_ERROR_NONE)
      ∧ trace st'
        = [Log LOG_ERROR "Failed to execute script: %s" [ArgS (Some "bad packet")]].
Proof.
  split; [reflexivity|].
  destruct (pipeline_lua_process_never_fails (H := demo_host) 5 () ()
              demo_state eq_refl) as (st' & Hrun & _ & Htr).
  exists st'. split; [exact Hrun|].
  exact (Htr 0%nat _ eq_refl eq_refl).
Defined.

Lemma commit_lua_upload_empties_buffer_witness :
  holds demo_pending demo_chunks
  ∧ sandbox_ready (lua demo_pending) = true
  ∧ ∃ s failed,
      commit_chunks 7 demo_terminal demo_chunks demo_pending = Ret (s, failed)
      ∧ commit_lua_upload 7 demo_terminal demo_pending
        = Ret (cleanup_lua_upload s)
      ∧ upload_chunks (cleanup_lua_upload s) = [].
Proof.
  split; [exact demo_pending_holds|]. split; [reflexivity|].
  exact (proj1 (commit_lua_upload_empties_buffer 7 demo_terminal demo_pending
                  demo_chunks demo_pending_holds eq_refl)).
Defined.


Lemma empty_terminal_upload_commits_witness :
  Z.land (wrap16 0) OFP_BSN_LUA_UPLOAD_MORE = 0
  ∧ handle_lua_upload 7 demo_terminal demo_pending
    = commit_lua_upload 7 demo_terminal demo_pending
  ∧ commit_lua_upload 7 demo_terminal demo_state = Ret demo_state.
Proof.
  split; [reflexivity|].
  destruct (empty_terminal_upload_commits (H := demo_host) 7 0 (bytes "c.lua")
              demo_pending eq_refl) as (H1 & _ & H3).
  split; [exact H1|]. exact (H3 demo_state eq_refl).
Defined.

Lemma upload_chunks_layout_and_walk_witness :
  let ups := [(bytes "a.lua", bytes "x = y"); (bytes "b.lua", bytes "return")] in
  upload_chunks demo_state = []
  ∧ forallb (λ u : list byte * list byte, 0 <? Z.of_nat (length u.2)) ups = true
  ∧ xbuf_length (pending (stored <$> ups)) < 2 ^ 32
  ∧ ∃ st1,
      upload_all 7 (more_message <$> ups) demo_state = Ret st1
      ∧ upload_chunks st1 = pending (stored <$> ups)
      ∧ commit_loop (S (length (upload_chunks st1))) 7 demo_terminal 0 st1
        = fst <$> commit_chunks 7 demo_terminal (stored <$> ups) st1.
Proof.
  intros ups. split; [reflexivity|]. split; [reflexivity|]. split; [reflexivity|].
  destruct (upload_chunks_layout_and_walk (H := demo_host) 7 ups demo_state
              eq_refl eq_refl eq_refl) as (st1 & H1 & H2 & _ & _ & H5).
  exists st1. split; [exact H1|]. split; [exact H2|]. apply H5.
Defined.

Lemma split_upload_is_compiled_chunk_by_chunk_witness :
  upload_chunks demo_state = []
  ∧ lua_load (bytes "function proc") "a.lua" = inr "a.lua: syntax error"
  ∧ (∃ code, lua_load (bytes "function proc" ++ bytes "ess() end") "a.lua"
             = inl code)
  ∧ ∃ st',
      upload_all 7
        [Of_bsn_lua_upload (bytes "function proc") OFP_BSN_LUA_UPLOAD_MORE
           (bytes "a.lua");
         Of_bsn_lua_upload (bytes "ess() end") 0 (bytes "a.lua")] demo_state
      = Ret st'
      ∧ error_replies (trace st')
        = [ErrorReply 7 (Of_bsn_lua_upload (bytes "ess() end") 0 (bytes "a.lua"))
             OF_ERROR_TYPE_BAD_REQUEST OF_REQUEST_FAILED_EPERM]
      ∧ closures (lua st') = closures (lua demo_state).
Proof.
  split; [reflexivity|]. split; [reflexivity|].
  split; [eexists; reflexivity|].
  destruct (split_upload_is_compiled_chunk_by_chunk (H := demo_host) 7
              demo_state "a.lua: syntax error" eq_refl eq_refl)
    as (st' & H1 & H2 & H3 & _).
  exists st'. split; [exact H1|]. split; [|exact H3].
  rewrite H2. reflexivity.
Defined.




Lemma demo_state_holds : holds demo_state [].
Proof. split; [reflexivity|]. split; reflexivity. Defined.


Lemma uploaded_chunk_reads_back_witness :
  bytes "x = y" ≠ []
  ∧ has_more (Of_bsn_lua_upload (bytes "x = y") 1 (bytes "a.lua")) = true
  ∧ xbuf_length (upload_chunks demo_pending) + SIZEOF_UPLOAD_CHUNK
      + Z.of_nat (length (bytes "x = y")) < 2 ^ 32
  ∧ ∃ st' c,
      handle_lua_upload 7 (Of_bsn_lua_upload (bytes "x = y") 1 (bytes "a.lua"))
        demo_pending = Ret st'
      ∧ chunk_at (upload_chunks st') (xbuf_length (upload_chunks demo_pending))
        = Ret c
      ∧ take (Z.to_nat (chunk_size c)) (chunk_data c) = bytes "x = y".
Proof.
  assert (Hne : bytes "x = y" ≠ []) by (by vm_compute).
  split; [exact Hne|]. split; [reflexivity|]. split; [reflexivity|].
  destruct (uploaded_chunk_reads_back (H := demo_host) 7 (bytes "x = y") 1
              (bytes "a.lua") demo_pending Hne eq_refl eq_refl)
    as (st' & c & H1 & _ & _ & H4 & _ & H6).
  exists st', c. split; [exact H1|]. split; [exact H4|]. exact H6.
Defined.

Lemma more_upload_only_buffers_witness :
  has_more (Of_bsn_lua_upload (bytes "x = y") 3 (bytes "a.lua")) = true
  ∧ ∃ st',
      handle_lua_upload 7 (Of_bsn_lua_upload (bytes "x = y") 3 (bytes "a.lua"))
        demo_pending = Ret st'
      ∧ handle_lua_upload 8 (Of_bsn_lua_upload (bytes "x = y") 3 (bytes "a.lua"))
          demo_pending = Ret st'
      ∧ lua st' = lua demo_pending.
Proof.
  split; [reflexivity|].
  destruct (more_upload_only_buffers (H := demo_host) 7 8 (bytes "x = y") 3
              (bytes "a.lua") demo_pending eq_refl)
    as (st' & H1 & H2 & H3 & _).
  exists st'. split; [exact H1|]. split; [exact H2|]. exact H3.
Defined.

Lemma buffered_uploads_grow_buffer_witness :
  let msgs := [Of_bsn_lua_upload (bytes "x = y") 1 (bytes "a.lua");
               Of_bsn_lua_upload [] 3 (bytes "b.lua");
               Of_bsn_lua_upload (bytes "return") 1 (bytes "c.lua")] in
  forallb has_more msgs = true
  ∧ ∃ st',
      upload_all 7 msgs demo_state = Ret st'
      ∧ xbuf_length (upload_chunks st') = 147.
Proof.
  intros msgs. split; [reflexivity|].
  destruct (buffered_uploads_grow_buffer (H := demo_host) 7 msgs demo_state
              eq_refl) as (st' & H1 & H2 & _).
  exists st'. split; [exact H1|]. exact H2.
Defined.

Lemma single_upload_commits_its_payload_witness :
  upload_chunks demo_state = []
  ∧ bytes "x = " ≠ []
  ∧ has_more (Of_bsn_lua_upload (bytes "x = ") 0 (bytes "a.lua")) = false
  ∧ SIZEOF_UPLOAD_CHUNK + Z.of_nat (length (bytes "x = ")) < 2 ^ 32
  ∧ ∃ st',
      handle_lua_upload 7 (Of_bsn_lua_upload (bytes "x = ") 0 (bytes "a.lua"))
        demo_state = Ret st'
      ∧ upload_chunks st' = []
      ∧ closures (lua st') = closures (lua demo_state).
Proof.
  assert (Hne : bytes "x = " ≠ []) by (by vm_compute).
  split; [reflexivity|]. split; [exact Hne|]. split; [reflexivity|].
  split; [reflexivity|].
  destruct (single_upload_commits_its_payload (H := demo_host) 7 (bytes "x = ")
              0 (bytes "a.lua") demo_state eq_refl Hne eq_refl eq_refl)
    as (_ & _ & Hfail & _).
  destruct (Hfail "a.lua: syntax error" eq_refl)
    as (st' & H1 & H2 & _ & H4 & _).
  exists st'. split; [exact H1|]. split; [exact H2|]. exact H4.
Defined.


Lemma commit_stack_effect_witness :
  holds demo_pending demo_chunks
  ∧ sandbox_ready (lua demo_pending) = true
  ∧ ∃ st' new,
      commit_lua_upload 7 demo_terminal demo_pending = Ret st'
      ∧ trace st' = trace demo_pending ++ new
      ∧ match error_replies new with
        | [] => stack (lua st') = stack (lua demo_pending)
        | _ :: _ => ∃ m, stack (lua st') = LString m :: stack (lua demo_pending)
        end.
Proof.
  split; [exact demo_pending_holds|]. split; [reflexivity|].
  exact (commit_stack_effect 7 demo_terminal demo_pending demo_chunks
           demo_pending_holds eq_refl).
Defined.

Lemma commit_keeps_entry_point_witness :
  holds demo_pending demo_chunks
  ∧ sandbox_ready (lua demo_pending) = true
  ∧ ∃ st',
      commit_lua_upload 7 demo_terminal demo_pending = Ret st'
      ∧ process_ref st' = process_ref demo_pending
      ∧ registry (lua st') = registry (lua demo_pending)
      ∧ entry_point_live st' = true.
Proof.
  split; [exact demo_pending_holds|]. split; [reflexivity|].
  destruct (commit_keeps_entry_point 7 demo_terminal demo_pending demo_chunks
              demo_pending_holds eq_refl) as (st' & H1 & H2 & H3 & _ & H5).
  exists st'. split; [exact H1|]. split; [exact H2|]. split; [exact H3|].
  exact (H5 eq_refl).
Defined.


Lemma pipeline_lua_process_without_entry_point_witness :
  (∀ f, registry (lua demo_no_entry) !! process_ref demo_no_entry
        ≠ Some (LFunction f))
  ∧ ∃ st' m,
      pipeline_lua_process (H := demo_host) 5 () () demo_no_entry
      = Ret (st', INDIGO_ERROR_NONE)
      ∧ trace st'
        = [Log LOG_ERROR "Failed to execute script: %s" [ArgS (Some m)]].
Proof.
  assert (Hno : ∀ f, registry (lua demo_no_entry) !! process_ref demo_no_entry
                     ≠ Some (LFunction f)) by (intros f; by vm_compute).
  split; [exact Hno|].
  destruct (pipeline_lua_process_without_entry_point (H := demo_host) 5 () ()
              demo_no_entry Hno) as (st' & m & H1 & H2 & _).
  exists st', m. split; [exact H1|]. exact H2.
Defined.

Lemma commit_chunk_without_sandbox_witness :
  sandbox_of (lua demo_no_sandbox) = None
  ∧ commit_chunk 7 demo_terminal (stored (bytes "a.lua", bytes "x = y"))
      demo_no_sandbox = Undefined.
Proof.
  split; [reflexivity|].
  exact (commit_chunk_without_sandbox (H := demo_host) 7 demo_terminal
           (stored (bytes "a.lua", bytes "x = y")) demo_no_sandbox eq_refl).
Defined.


Lemma upload_session_ignores_sender_witness :
  let msgs := [(1, Of_bsn_lua_upload (bytes "x = y") 1 (bytes "a.lua"));
               (2, Of_bsn_lua_upload (bytes "error('boom')") 1 (bytes "b.lua"))] in
  forallb (λ p : Z * of_object, has_more p.2) msgs = true
  ∧ listener_run (msgs ++ [(3, demo_terminal)]) demo_state
    = upload_all 3 ((snd <$> msgs) ++ [demo_terminal]) demo_state.
Proof.
  intros msgs. split; [reflexivity|].
  exact (upload_session_ignores_sender (H := demo_host) msgs 3 [] 0
           (bytes "c.lua") demo_state eq_refl).
Defined.

Lemma demo_pending_bad_holds : holds demo_pending_bad demo_chunks_bad.
Proof. split; [reflexivity|]. split; reflexivity. Defined.

Lemma commit_lua_upload_stops_at_first_failure_witness :
  (match verdict 1%nat (stored (bytes "b.lua", bytes "error('boom')"))
           (lua demo_after_first) with
   | RunFails _ m => m = "boom"
   | _ => False
   end
   ∧ ∃ st',
       commit_lua_upload 7 demo_terminal demo_pending = Ret st'
       ∧ commit_lua_upload 7 demo_terminal
           (set_upload_chunks (pending (take 2 demo_chunks)) demo_pending)
         = Ret st'
       ∧ upload_chunks st' = [])
  ∧ (verdict 1%nat (stored (bytes "b.lua", bytes "x = "))
       (lua demo_after_first)
     = CompileFails "b.lua: syntax error"
     ∧ ∃ st',
         commit_lua_upload 7 demo_terminal demo_pending_bad = Ret st'
         ∧ commit_lua_upload 7 demo_terminal
             (set_upload_chunks (pending (take 2 demo_chunks_bad))
                demo_pending_bad)
           = Ret st'
         ∧ upload_chunks st' = []).
Proof.
  assert (Hrun : all_run 1%nat (take 1 demo_chunks) (lua demo_pending)
                 = Some (lua demo_after_first)) by (vm_compute; reflexivity).
  assert (Hv1 : match verdict 1%nat
                         (stored (bytes "b.lua", bytes "error('boom')"))
                         (lua demo_after_first) with
                 | RunFails _ m => m = "boom"
                 | _ => False
                 end) by (vm_compute; reflexivity).
  assert (Hf1 : verdict_fails
                  (verdict 1%nat (stored (bytes "b.lua", bytes "error('boom')"))
                     (lua demo_after_first)) = true)
    by (vm_compute; reflexivity).
  assert (Hv2 : verdict 1%nat (stored (bytes "b.lua", bytes "x = "))
                  (lua demo_after_first)
                = CompileFails "b.lua: syntax error")
    by (vm_compute; reflexivity).
  split.
  - split; [exact Hv1|].
    destruct (commit_lua_upload_stops_at_first_failure (H := demo_host) 7
                demo_terminal demo_pending 1%nat (take 1 demo_chunks)
                (drop 2 demo_chunks)
                (stored (bytes "b.lua", bytes "error('boom')"))
                (lua demo_after_first) demo_pending_holds eq_refl
                (λ e, O_S _ (eq_sym e)) Hrun
                Hf1)
      as (st' & new & H1 & H2 & H3 & _).
    exists st'. split; [exact H1|]. split; [exact H2|]. exact H3.
  - split; [exact Hv2|].
    destruct (commit_lua_upload_stops_at_first_failure (H := demo_host) 7
                demo_terminal demo_pending_bad 1%nat (take 1 demo_chunks_bad)
                (drop 2 demo_chunks_bad)
                (stored (bytes "b.lua", bytes "x = "))
                (lua demo_after_first) demo_pending_bad_holds eq_refl
                (λ e, O_S _ (eq_sym e)) Hrun
                (f_equal verdict_fails Hv2))
      as (st' & new & H1 & H2 & H3 & _).
    exists st'. split; [exact H1|]. split; [exact H2|]. exact H3.
Defined.

Lemma commit_lua_upload_error_reply_witness :
  (all_run 1%nat demo_chunks (lua demo_pending) = None
   ∧ ∃ st' new,
       commit_lua_upload 7 demo_terminal demo_pending = Ret st'
       ∧ trace st' = trace demo_pending ++ new
       ∧ error_replies new = [the_error_reply 7 demo_terminal])
  ∧ (all_run 1%nat demo_chunks_bad (lua demo_pending_bad) = None
     ∧ ∃ st' new,
         commit_lua_upload 7 demo_terminal demo_pending_bad = Ret st'
         ∧ trace st' = trace demo_pending_bad ++ new
         ∧ error_replies new = [the_error_reply 7 demo_terminal])
  ∧ (all_run 1%nat (take 1 demo_chunks) (lua demo_pending)
     = Some (lua demo_after_first)
     ∧ ∃ st' new,
         commit_lua_upload 7 demo_terminal
           (set_upload_chunks (pending (take 1 demo_chunks)) demo_pending)
         = Ret st'
         ∧ trace st' = trace demo_pending ++ new
         ∧ error_replies new = []).
Proof.
  assert (Hn1 : all_run 1%nat demo_chunks (lua demo_pending) = None)
    by (vm_compute; reflexivity).
  assert (Hn2 : all_run 1%nat demo_chunks_bad (lua demo_pending_bad) = None)
    by (vm_compute; reflexivity).
  assert (Hs : all_run 1%nat (take 1 demo_chunks) (lua demo_pending)
               = Some (lua demo_after_first)) by (vm_compute; reflexivity).
  assert (Hh : holds
                 (set_upload_chunks (pending (take 1 demo_chunks)) demo_pending)
                 (take 1 demo_chunks))
    by (split; [reflexivity|]; split; reflexivity).
  split; [|split].
  - split; [exact Hn1|].
    destruct (commit_lua_upload_error_reply (H := demo_host) 7 demo_terminal
                demo_pending 1%nat demo_chunks demo_pending_holds eq_refl
                (λ e, O_S _ (eq_sym e)))
      as (st' & new & H1 & H2 & H3).
    rewrite Hn1 in H3. destruct H3 as (H3 & _).
    exists st', new. split; [exact H1|]. split; [exact H2|]. exact H3.
  - split; [exact Hn2|].
    destruct (commit_lua_upload_error_reply (H := demo_host) 7 demo_terminal
                demo_pending_bad 1%nat demo_chunks_bad demo_pending_bad_holds
                eq_refl (λ e, O_S _ (eq_sym e)))
      as (st' & new & H1 & H2 & H3).
    rewrite Hn2 in H3. destruct H3 as (H3 & _).
    exists st', new. split; [exact H1|]. split; [exact H2|]. exact H3.
  - split; [exact Hs|].
    destruct (commit_lua_upload_error_reply (H := demo_host) 7 demo_terminal
                (set_upload_chunks (pending (take 1 demo_chunks)) demo_pending)
                1%nat (take 1 demo_chunks) Hh eq_refl (λ e, O_S _ (eq_sym e)))
      as (st' & new & H1 & H2 & H3).
    change (lua (set_upload_chunks (pending (take 1 demo_chunks)) demo_pending))
      with (lua demo_pending) in H3.
    rewrite Hs in H3.
    exists st', new. split; [exact H1|]. split; [exact H2|]. exact H3.
Defined.

Lemma uploaded_chunk_name_witness :
  bytes "x = y" ≠ []
  ∧ has_more (Of_bsn_lua_upload (bytes "x = y") 1 (bytes "a.lua")) = true
  ∧ ∃ st',
      handle_lua_upload 7 (Of_bsn_lua_upload (bytes "x = y") 1 (bytes "a.lua"))
        demo_state = Ret st'
      ∧ c_string (chunk_filename (stored_chunk (bytes "a.lua") (bytes "x = y")))
        = bytes "a.lua"
      ∧ ∃ st2,
          commit_lua_upload 9 demo_terminal st' = Ret st2
          ∧ error_replies (trace st2) = error_replies (trace st').
Proof.
  assert (Hne : bytes "x = y" ≠ []) by (by vm_compute).
  split; [exact Hne|]. split; [reflexivity|].
  destruct (uploaded_chunk_name (H := demo_host) 7 (bytes "x = y") 1
              (bytes "a.lua") demo_state Hne eq_refl)
    as (st' & H1 & _ & _ & H4 & H5).
  exists st'. split; [exact H1|].
  split; [exact (H4 ltac:(vm_compute; lia) eq_refl)|].
  assert (Hroom : SIZEOF_UPLOAD_CHUNK + Z.of_nat (length (bytes "x = y"))
                  < 2 ^ 32) by reflexivity.
  destruct (H5 eq_refl Hroom 9 demo_terminal) as (_ & Hok).
  destruct (Hok (CGetGlobal "y" (λ v, CSetGlobal "x" v CReturn)) 1%nat
              (lua demo_after_first) eq_refl eq_refl
              ltac:(vm_compute; reflexivity))
    as (st2 & H6 & _ & H8).
  exists st2. split; [exact H6|]. exact H8.
Defined.

Lemma commit_logs_chunks_in_order_witness :
  walked 1%nat demo_chunks (lua demo_pending) = 2%nat
  ∧ ∃ st' new,
      commit_lua_upload 7 demo_terminal demo_pending = Ret st'
      ∧ trace st' = trace demo_pending ++ new
      ∧ List.filter is_loading_log new
        = [loading_log (stored (bytes "a.lua", bytes "x = y"));
           loading_log (stored (bytes "b.lua", bytes "error('boom')"))].
Proof.
  assert (Hw : walked 1%nat demo_chunks (lua demo_pending) = 2%nat)
    by (vm_compute; reflexivity).
  split; [exact Hw|].
  destruct (commit_logs_chunks_in_order (H := demo_host) 7 demo_terminal
              demo_pending 1%nat demo_chunks demo_pending_holds eq_refl
              (λ e, O_S _ (eq_sym e)))
    as (st' & new & H1 & H2 & H3 & _).
  rewrite Hw in H3.
  exists st', new. split; [exact H1|]. split; [exact H2|]. exact H3.
Defined.

Lemma pipeline_lua_process_frame_witness :
  entry_point_live demo_pending = true
  ∧ ∃ st',
      pipeline_lua_process (H := demo_host) 5 () () demo_pending
      = Ret (st', INDIGO_ERROR_NONE)
      ∧ upload_chunks st' = upload_chunks demo_pending
      ∧ entry_point_live st' = true
      ∧ ∃ v, stack (lua st') = v :: stack (lua demo_pending).
Proof.
  split; [reflexivity|].
  destruct (pipeline_lua_process_frame (H := demo_host) 5 () () demo_pending
              eq_refl) as (st' & H1 & _ & _ & _ & H5 & H6 & _ & H8).
  exists st'. split; [exact H1|]. split; [exact H5|]. split; [exact H6|].
  exact (H8 0%nat {| body := CError "bad packet"; fenv := 0%nat |}
           eq_refl eq_refl).
Defined.

Lemma listener_run_keeps_chunks_witness :
  holds demo_state []
  ∧ xbuf_length (upload_chunks demo_state) + run_bytes (snd <$> demo_run)
    < 2 ^ 32
  ∧ listener_run demo_run demo_state = Ret demo_run_end
  ∧ ∃ cs', holds demo_run_end cs'.
Proof.
  assert (Hend : listener_run demo_run demo_state = Ret demo_run_end)
    by (vm_compute; reflexivity).
  split; [exact demo_state_holds|]. split; [reflexivity|].
  split; [exact Hend|].
  destruct (listener_run_keeps_chunks (H := demo_host) demo_run demo_state
              demo_run_end [] demo_state_holds eq_refl Hend)
    as (cs' & H1 & _).
  exists cs'. exact H1.
Defined.
